(** * deepmap2: the tag extraction protocol and the map viewport logic

    A shallow embedding of the logic of the application:

    - [parseResponse] (services/geminiService.ts), which pulls the
      [{{DATA:Name|Lat|Lng|Address}}] tags out of a model response, and
      [sendMessageToGemini], which calls it;
    - [MapUpdater], [FitBoundsControl], [MapEventHandler], [RoutingControl]
      and [isValidCoord] (components/Map.tsx);
    - the handlers of the route planner (components/RoutePlanner.tsx), but
      not the two functions that print a distance and a duration;
    - the state of [App.tsx], its handlers and the callbacks of its position
      watches.

    JavaScript numbers are IEEE 754 binary64 values; they are modelled by the
    [spec_float] type of the standard library at precision 53 and maximal
    exponent 1024, with the library's specification of the arithmetic.
    JavaScript strings are sequences of UTF-16 code units, modelled as lists
    of [N]. *)

From Stdlib Require Import ZArith NArith PeanoNat List Bool Lia.
From Stdlib Require Import Ascii String.
From Stdlib Require Import Floats.SpecFloat Floats.PrimFloat Floats.FloatOps.
Import ListNotations.

Set Warnings "-inexact-float".

(* ================================================================== *)
(** * Numbers *)
(* ================================================================== *)

Module Num.

Local Open Scope Z_scope.

Definition number := spec_float.

Definition add : number -> number -> number := SFadd prec emax.
Definition sub : number -> number -> number := SFsub prec emax.
Definition mul : number -> number -> number := SFmul prec emax.
Definition sqrt : number -> number := SFsqrt prec emax.
Definition abs : number -> number := SFabs.

(** [a > b], [a === b] and [a !== b] on numbers; every comparison with NaN
    is false, so [NaN !== NaN] holds. *)
Definition gt (a b : number) : bool := SFltb b a.
Definition le (a b : number) : bool := SFleb a b.
Definition strictEq (a b : number) : bool := SFeqb a b.
Definition strictNeq (a b : number) : bool := negb (SFeqb a b).

(** The global predicates [isNaN] and [isFinite], applied to a number. *)
Definition isNaN (x : number) : bool :=
  match x with S754_nan => true | _ => false end.

Definition isFinite (x : number) : bool :=
  match x with S754_nan | S754_infinity _ => false | _ => true end.

(** [ToBoolean] on a number: [NaN], [+0] and [-0] are falsy. *)
Definition truthy (x : number) : bool :=
  match x with S754_nan | S754_zero _ => false | _ => true end.

(** [Math.pow(x, 2)]: the engines' [pow] returns [x * x] when the exponent
    is 2. *)
Definition pow2 (x : number) : number := mul x x.

(** The value of a decimal numeral: [m * 10 ^ e10], with the sign [neg],
    rounded to the nearest binary64 value, ties to even. *)
Definition ofDecimal (neg : bool) (m : Z) (e10 : Z) : number :=
  match m with
  | Z0 => S754_zero neg
  | Zpos _ =>
      if 0 <=? e10
      then binary_normalize prec emax
             (if neg then - (m * 10 ^ e10) else m * 10 ^ e10) 0 neg
      else let '(q, e, l) :=
             SFdiv_core_binary prec emax m 0 (10 ^ (- e10)) 0 in
           binary_round_aux prec emax neg q e l
  | Zneg _ => S754_nan
  end.

Definition ofZ (z : Z) : number := binary_normalize prec emax z 0 false.

End Num.

Import Num.

(* ================================================================== *)
(** * Strings *)
(* ================================================================== *)

Module Str.

(** A string is the list of its UTF-16 code units. *)
Definition jsstring := list N.

(** The code units of an ASCII literal. *)
Definition lit (s : string) : jsstring :=
  List.map N_of_ascii (list_ascii_of_string s).

Definition ch (a : ascii) : N := N_of_ascii a.

(** [s] begins with [p]: the rest of [s] after [p]. *)
Fixpoint stripPrefix (p s : jsstring) : option jsstring :=
  match p with
  | [] => Some s
  | a :: p' =>
      match s with
      | [] => None
      | b :: s' => if N.eqb a b then stripPrefix p' s' else None
      end
  end.

(** WhiteSpace and LineTerminator code units, the ones [trim] removes. *)
Definition isWhiteSpace (c : N) : bool :=
  ((9 <=? c) && (c <=? 13) || (c =? 32) || (c =? 160) || (c =? 5760)
   || ((8192 <=? c) && (c <=? 8202)) || (c =? 8232) || (c =? 8233)
   || (c =? 8239) || (c =? 8287) || (c =? 12288) || (c =? 65279))%N.

Fixpoint trimStart (s : jsstring) : jsstring :=
  match s with
  | c :: s' => if isWhiteSpace c then trimStart s' else s
  | [] => []
  end.

Definition trimEnd (s : jsstring) : jsstring := rev (trimStart (rev s)).

(** [String.prototype.trim]. *)
Definition trim (s : jsstring) : jsstring := trimEnd (trimStart s).

(** [s.replace(a, b)] with a one-unit string pattern [a]: only the first
    occurrence is replaced. *)
Fixpoint replaceFirst (a b : N) (s : jsstring) : jsstring :=
  match s with
  | [] => []
  | c :: s' => if N.eqb c a then b :: s' else c :: replaceFirst a b s'
  end.

Definition isDigit (c : N) : bool := ((48 <=? c) && (c <=? 57))%N.

(** The longest run of decimal digits at the head of [s], and what follows. *)
Fixpoint spanDigits (s : jsstring) : jsstring * jsstring :=
  match s with
  | c :: s' =>
      if isDigit c
      then let '(d, r) := spanDigits s' in (c :: d, r)
      else ([], s)
  | [] => ([], [])
  end.

(** The value of a run of decimal digits, most significant first. *)
Definition digitsValue (d : jsstring) : Z :=
  fold_left (fun acc c => (10 * acc + (Z.of_N c - 48))%Z) d 0%Z.

(** An optional sign at the head of [s]: whether it is [-], and the rest. *)
Definition spanSign (s : jsstring) : bool * jsstring :=
  match s with
  | c :: s' =>
      if N.eqb c (ch "-") then (true, s')
      else if N.eqb c (ch "+") then (false, s')
      else (false, s)
  | [] => (false, [])
  end.

(** The ExponentPart of a StrDecimalLiteral at the head of [s], when there
    is a complete one: [e] or [E], an optional sign and at least one digit. *)
Definition exponentPart (s : jsstring) : Z :=
  match s with
  | c :: s' =>
      if N.eqb c (ch "e") || N.eqb c (ch "E") then
        let '(neg, r) := spanSign s' in
        let '(d, _) := spanDigits r in
        match d with
        | [] => 0%Z
        | _ => if neg then (- digitsValue d)%Z else digitsValue d
        end
      else 0%Z
  | [] => 0%Z
  end.

(** The global [parseFloat]: leading white space is skipped, then the longest
    prefix that is a StrDecimalLiteral is converted; [NaN] when there is
    none. *)
Definition parseFloat (s : jsstring) : number :=
  let '(neg, s1) := spanSign (trimStart s) in
  match stripPrefix (lit "Infinity") s1 with
  | Some _ => S754_infinity neg
  | None =>
      let '(ip, r1) := spanDigits s1 in
      let '(fp, r2) :=
        match r1 with
        | c :: r => if N.eqb c (ch ".") then spanDigits r else ([], r1)
        | [] => ([], r1)
        end in
      match ip ++ fp with
      | [] => S754_nan
      | ds => ofDecimal neg (digitsValue ds)
                (exponentPart r2 - Z.of_nat (List.length fp))
      end
  end.

End Str.

Import Str.

(* ================================================================== *)
(** * The extraction protocol (services/geminiService.ts) *)
(* ================================================================== *)

Module Extraction.

(** ** The regular expression

    [PLACE_TAG_REGEX] is a sequence of literals and of capturing groups that
    hold a lazily repeated character class.  Such patterns are matched by
    backtracking: a lazy group first tries to stop, and takes one more code
    unit of its class only when the rest of the pattern fails. *)

Inductive Item : Type :=
| Lit (p : jsstring)
| LazyGroup (cls : N -> bool).

Definition Pattern := list Item.

(** The matcher of the rest of a pattern: the captures and the unread input. *)
Definition Cont := jsstring -> option (list jsstring * jsstring).

(** A lazy group followed by [k]; [acc] holds, reversed, what the group has
    taken so far. *)
Fixpoint lazyGroup (cls : N -> bool) (k : Cont) (acc s : jsstring)
  : option (list jsstring * jsstring) :=
  match k s with
  | Some (caps, rest) => Some (rev acc :: caps, rest)
  | None =>
      match s with
      | c :: s' => if cls c then lazyGroup cls k (c :: acc) s' else None
      | [] => None
      end
  end.

(** A match of the pattern at the head of the input. *)
Fixpoint matchHere (p : Pattern) : Cont :=
  match p with
  | [] => fun s => Some ([], s)
  | Lit l :: p' =>
      fun s =>
        match stripPrefix l s with
        | Some r => matchHere p' r
        | None => None
        end
  | LazyGroup cls :: p' => fun s => lazyGroup cls (matchHere p') [] s
  end.

Definition notChar (a : ascii) (c : N) : bool := negb (N.eqb c (ch a)).

(** [/\{\{DATA:([^|]*?)\|([^|]*?)\|([^|]*?)\|([^}]*?)\}\}/g] *)
Definition PLACE_TAG_REGEX : Pattern :=
  [ Lit (lit "{{DATA:");
    LazyGroup (notChar "|"); Lit (lit "|");
    LazyGroup (notChar "|"); Lit (lit "|");
    LazyGroup (notChar "|"); Lit (lit "|");
    LazyGroup (notChar "}"); Lit (lit "}}") ].

(** The result of a successful [exec]: where the match starts, the matched
    text and the captures. *)
Record Match := {
  index : nat;
  fullTag : jsstring;
  groups : list jsstring
}.

(** The first match at or after the head of [s], which sits at [idx] in the
    subject. *)
Fixpoint search (p : Pattern) (s : jsstring) (idx : nat) : option Match :=
  match matchHere p s with
  | Some (caps, rest) =>
      Some {| index := idx;
              fullTag := firstn (List.length s - List.length rest) s;
              groups := caps |}
  | None =>
      match s with
      | [] => None
      | _ :: s' => search p s' (S idx)
      end
  end.

(** [re.exec(text)] for a global expression whose [lastIndex] is given: the
    match, if any, and the new [lastIndex], which is reset to 0 on failure. *)
Definition exec (p : Pattern) (text : jsstring) (lastIndex : nat)
  : option Match * nat :=
  if Nat.ltb (List.length text) lastIndex then (None, 0)
  else
    match search p (skipn lastIndex text) lastIndex with
    | Some m => (Some m, index m + List.length (fullTag m))
    | None => (None, 0)
    end.

(** [text.replace(re, '')] for a global expression: the loop of the
    replacement, from position [pos], with [acc] the text kept so far. *)
Fixpoint replaceLoop (fuel : nat) (p : Pattern) (text : jsstring)
  (pos : nat) (acc : jsstring) : option jsstring :=
  match fuel with
  | 0 => None
  | S fuel' =>
      match exec p text pos with
      | (Some m, pos') =>
          replaceLoop fuel' p text pos'
            (acc ++ firstn (index m - pos) (skipn pos text))
      | (None, _) => Some (acc ++ skipn pos text)
      end
  end.

(** ** Places *)

Record Coordinates := {
  lat : number;
  lng : number;
  accuracy : option number
}.

Record Place := {
  id : jsstring;
  name : jsstring;
  coordinates : Coordinates;
  address : option jsstring;
  description : option jsstring
}.

Record ParseResult := {
  cleanText : jsstring;
  places : list Place
}.

(** [isValidCoordinate] of [parseResponse]; [typeof num === 'number'] holds
    of every number. *)
Definition isValidCoordinate (num : number) : bool :=
  negb (isNaN num) && isFinite num.

(** The literal [0.0001]. *)
Definition originEpsilon : number := ofDecimal false 1 (-4).

(** The fields of a match, [const [fullTag, name, latStr, lngStr, address] =
    match]. *)
Definition field (m : Match) (i : nat) : jsstring := nth i (groups m) [].

Section Parse.

(** [Math.random().toString(36).substr(2, 9)]: the identifier that the n-th
    draw of the generator yields. *)
Variable randomId : nat -> jsstring.

(** The body of the loop for one match: the place it pushes, if any. *)
Definition placeOfMatch (draw : nat) (m : Match) : option Place :=
  let latN := parseFloat (replaceFirst (ch ",") (ch ".") (trim (field m 1))) in
  let lngN := parseFloat (replaceFirst (ch ",") (ch ".") (trim (field m 2))) in
  if isValidCoordinate latN && isValidCoordinate lngN
     && (gt (abs latN) originEpsilon || gt (abs lngN) originEpsilon)
  then Some {| id := randomId draw;
               name := trim (field m 0);
               coordinates := {| lat := latN; lng := lngN; accuracy := None |};
               address := Some (trim (field m 3));
               description :=
                 Some (lit "Located at " ++ trim (field m 3)) |}
  else None.

(** [while ((match = PLACE_TAG_REGEX.exec(text)) !== null) { ... }], with the
    [lastIndex] of the expression, the number of identifiers drawn so far and
    the array [places]. *)
Fixpoint execLoop (fuel : nat) (text : jsstring) (lastIndex draws : nat)
  (acc : list Place) : option (list Place) :=
  match fuel with
  | 0 => None
  | S fuel' =>
      match exec PLACE_TAG_REGEX text lastIndex with
      | (Some m, lastIndex') =>
          match placeOfMatch draws m with
          | Some pl => execLoop fuel' text lastIndex' (S draws) (acc ++ [pl])
          | None => execLoop fuel' text lastIndex' draws acc
          end
      | (None, _) => Some acc
      end
  end.

(** [parseResponse].  Both loops advance by at least one code unit per turn,
    so the length of the text plus one bounds their turns (see
    [parseResponse_total]). *)
Definition parseResponse (text : jsstring) : option ParseResult :=
  match execLoop (S (List.length text)) text 0 0 [] with
  | Some ps =>
      match replaceLoop (S (List.length text)) PLACE_TAG_REGEX text 0 [] with
      | Some clean => Some {| cleanText := clean; places := ps |}
      | None => None
      end
  | None => None
  end.

End Parse.

End Extraction.

Import Extraction.

(** ** The vocabulary of the statements about the protocol *)

Module Tags.

(** The four fields of a tag, as they stand between the delimiters. *)
Record Tag := {
  tagName : jsstring;
  tagLat : jsstring;
  tagLng : jsstring;
  tagAddress : jsstring
}.

Definition fields (t : Tag) : list jsstring :=
  [tagName t; tagLat t; tagLng t; tagAddress t].

(** The text of a tag. *)
Definition tagText (t : Tag) : jsstring :=
  lit "{{DATA:" ++ tagName t ++ lit "|" ++ tagLat t ++ lit "|"
    ++ tagLng t ++ lit "|" ++ tagAddress t ++ lit "}}".

(** No code unit of [s] is the character [a]. *)
Definition avoids (a : ascii) (s : jsstring) : bool := forallb (notChar a) s.

(** A well-formed tag: no pipe in the first three fields, no closing brace
    in the fourth. *)
Definition wellFormed (t : Tag) : bool :=
  avoids "|" (tagName t) && avoids "|" (tagLat t) && avoids "|" (tagLng t)
  && avoids "}" (tagAddress t).

(** The result of [exec] for the tag [t] found at [idx]. *)
Definition tagMatch (idx : nat) (t : Tag) : Match :=
  {| index := idx; fullTag := tagText t; groups := fields t |}.

(** A text cut into tags, each with the text that precedes it, and a tail. *)
Fixpoint weave (l : list (jsstring * Tag)) (tail : jsstring) : jsstring :=
  match l with
  | [] => tail
  | (g, t) :: l' => g ++ tagText t ++ weave l' tail
  end.

(** The same text without its tags. *)
Fixpoint strip (l : list (jsstring * Tag)) (tail : jsstring) : jsstring :=
  match l with
  | [] => tail
  | (g, _) :: l' => g ++ strip l' tail
  end.

Definition tagOfGroups (gs : list jsstring) : Tag :=
  {| tagName := nth 0 gs []; tagLat := nth 1 gs [];
     tagLng := nth 2 gs []; tagAddress := nth 3 gs [] |}.

(** The tags the expression matches in [s], from left to right and without
    overlap, each with the text before it, and the text after the last. *)
Fixpoint cut (fuel : nat) (s : jsstring)
  : list (jsstring * Tag) * jsstring :=
  match fuel with
  | 0 => ([], s)
  | S fuel' =>
      match search PLACE_TAG_REGEX s 0 with
      | Some m =>
          let '(l, tail) :=
            cut fuel' (skipn (index m + List.length (fullTag m)) s) in
          ((firstn (index m) s, tagOfGroups (groups m)) :: l, tail)
      | None => ([], s)
      end
  end.

Definition cutText (text : jsstring) : list (jsstring * Tag) * jsstring :=
  cut (S (List.length text)) text.

Definition matchedTags (text : jsstring) : list Tag :=
  List.map snd (fst (cutText text)).

(** The expression matches somewhere in [s]. *)
Definition hasTag (s : jsstring) : bool :=
  match search PLACE_TAG_REGEX s 0 with Some _ => true | None => false end.

(** The coordinates [parseResponse] reads in a tag. *)
Definition tagLatitude (t : Tag) : number :=
  parseFloat (replaceFirst (ch ",") (ch ".") (trim (tagLat t))).

Definition tagLongitude (t : Tag) : number :=
  parseFloat (replaceFirst (ch ",") (ch ".") (trim (tagLng t))).

(** A number within [0.0001] of zero. *)
Definition nearZero (x : number) : bool := le (abs x) originEpsilon.

Definition tagCoordinates (t : Tag) : Coordinates :=
  {| lat := tagLatitude t; lng := tagLongitude t; accuracy := None |}.

Definition allWhite (w : jsstring) : bool := forallb isWhiteSpace w.

(** The tags the protocol drops, in the words of the specification: a
    coordinate that is not a number or not finite, or both coordinates
    within [0.0001] of the origin. *)
Definition dropped (t : Tag) : bool :=
  isNaN (tagLatitude t) || negb (isFinite (tagLatitude t))
  || isNaN (tagLongitude t) || negb (isFinite (tagLongitude t))
  || (nearZero (tagLatitude t) && nearZero (tagLongitude t)).

(** The tags the protocol keeps. *)
Definition kept (t : Tag) : bool := negb (dropped t).

Section Places.

Variable randomId : nat -> jsstring.

(** The place of an accepted tag, with the identifier of the given draw. *)
Definition placeOfTag (draw : nat) (t : Tag) : option Place :=
  placeOfMatch randomId draw (tagMatch 0 t).

(** The place an accepted tag yields at the given draw. *)
Definition placeAt (d : nat) (t : Tag) : Place :=
  {| id := randomId d;
     name := trim (tagName t);
     coordinates := tagCoordinates t;
     address := Some (trim (tagAddress t));
     description := Some (lit "Located at " ++ trim (tagAddress t)) |}.

(** The places of a list of tags, in order; only accepted tags draw an
    identifier. *)
Fixpoint placesFrom (draws : nat) (ts : list Tag) : list Place :=
  match ts with
  | [] => []
  | t :: ts' =>
      match placeOfTag draws t with
      | Some pl => pl :: placesFrom (S draws) ts'
      | None => placesFrom draws ts'
      end
  end.

End Places.

End Tags.

Import Tags.

(** Identifiers for the examples: the n-th draw yields the digit [n]. *)
Definition sampleId (n : nat) : jsstring := [N.of_nat (48 + n)].

Definition names (r : option ParseResult) : option (list jsstring) :=
  option_map (fun r => List.map name (places r)) r.

Definition shown (r : option ParseResult) : option jsstring :=
  option_map cleanText r.

(* ================================================================== *)
(** * The map viewport (components/Map.tsx) *)
(* ================================================================== *)

Module Viewport.

(** [isValidCoord]; the two [typeof] tests hold of every number. *)
Definition isValidCoord (lat lng : number) : bool :=
  negb (isNaN lat) && negb (isNaN lng) && isFinite lat && isFinite lng.

Definition LatLngTuple : Type := number * number.

Record RouteData := {
  route_coordinates : list LatLngTuple;
  distance : number;
  duration : number
}.

(** The options the components pass to [setView] and [fitBounds]. *)
Record ZoomPanOptions := {
  animate : bool;
  pan_duration : number;
  easeLinearity : number
}.

Record FitBoundsOptions := {
  padding : number * number;
  maxZoom : option number;
  fit_animate : bool;
  fit_duration : option number
}.

(** A call that moved the camera. *)
Inductive MapCall : Type :=
| SetView (target : LatLngTuple) (zoom : number) (opts : ZoomPanOptions)
| FitBounds (points : list LatLngTuple) (opts : FitBoundsOptions).

(** The map library, as the components use it.  A result [None] stands for a
    call that raises. *)
Record Leaflet := {
  Map : Type;
  Bounds : Type;
  getCenter : Map -> LatLngTuple;
  getZoom : Map -> number;
  latLngBounds : list LatLngTuple -> option Bounds;
  isValid : Bounds -> bool;
  setView : LatLngTuple -> number -> ZoomPanOptions -> Map -> option Map;
  fitBounds : Bounds -> FitBoundsOptions -> Map -> option Map
}.

(** The properties of [MapUpdater]. *)
Record Props := {
  center : Coordinates;
  zoom : option number;
  userLocation : option Coordinates;
  isNavigating : bool;
  routeData : option RouteData;
  isFollowingUser : bool
}.

(** The two references of [MapUpdater]. *)
Record Refs := {
  lastAppliedCenter : option Coordinates;
  lastAppliedZoom : option number
}.

(** The literals of the component. *)
Definition followThreshold : number := ofDecimal false 1 (-4).
Definition centerEpsilon : number := ofDecimal false 1 (-6).

Definition routeFitOptions : FitBoundsOptions :=
  {| padding := (ofZ 50, ofZ 50); maxZoom := None;
     fit_animate := true; fit_duration := None |}.

Definition followOptions : ZoomPanOptions :=
  {| animate := true; pan_duration := ofZ 1;
     easeLinearity := ofDecimal false 25 (-2) |}.

Definition centerOptions : ZoomPanOptions :=
  {| animate := true; pan_duration := ofDecimal false 15 (-1);
     easeLinearity := ofDecimal false 25 (-2) |}.

Definition showAllOptions : FitBoundsOptions :=
  {| padding := (ofZ 50, ofZ 50); maxZoom := Some (ofZ 15);
     fit_animate := true; fit_duration := Some (ofDecimal false 15 (-1)) |}.

(** What a run of the effect leaves: the camera calls that went through, the
    references and the map. *)
Record Run (L : Leaflet) := {
  calls : list MapCall;
  refs : Refs;
  map : Map L
}.

Arguments calls {L} _.
Arguments refs {L} _.
Arguments map {L} _.

Section Components.

Variable L : Leaflet.

(** [routeData && routeData.coordinates.length > 0 && !isFollowingUser] *)
Definition routeFitGuard (p : Props) : option RouteData :=
  match routeData p with
  | Some r =>
      match route_coordinates r with
      | [] => None
      | _ :: _ => if isFollowingUser p then None else Some r
      end
  | None => None
  end.

(** [(isNavigating || isFollowingUser) && userLocation &&
    isValidCoord(userLocation.lat, userLocation.lng)] *)
Definition followGuard (p : Props) : option Coordinates :=
  if isNavigating p || isFollowingUser p then
    match userLocation p with
    | Some u => if isValidCoord (lat u) (lng u) then Some u else None
    | None => None
    end
  else None.

(** [Math.sqrt(Math.pow(c.lat - u.lat, 2) + Math.pow(c.lng - u.lng, 2))] *)
Definition dist (c : LatLngTuple) (u : Coordinates) : number :=
  Num.sqrt (add (pow2 (sub (fst c) (lat u))) (pow2 (sub (snd c) (lng u)))).

(** The follow branch of the effect, for the user location [u]. *)
Definition followUser (u : Coordinates) (rf : Refs) (m : Map L) : Run L :=
  if gt (dist (getCenter L m) u) followThreshold then
    match setView L (lat u, lng u) (getZoom L m) followOptions m with
    | Some m' =>
        {| calls := [SetView (lat u, lng u) (getZoom L m) followOptions];
           refs := rf; map := m' |}
    | None => {| calls := []; refs := rf; map := m |}
    end
  else {| calls := []; refs := rf; map := m |}.

(** [zoom || map.getZoom()] *)
Definition targetZoom (p : Props) (m : Map L) : number :=
  match zoom p with
  | Some z => if truthy z then z else getZoom L m
  | None => getZoom L m
  end.

Definition centerChanged (p : Props) (rf : Refs) : bool :=
  match lastAppliedCenter rf with
  | None => true
  | Some c0 =>
      gt (abs (sub (lat c0) (lat (center p)))) centerEpsilon
      || gt (abs (sub (lng c0) (lng (center p)))) centerEpsilon
  end.

Definition zoomChanged (p : Props) (rf : Refs) (m : Map L) : bool :=
  match lastAppliedZoom rf with
  | None => true
  | Some z0 => strictNeq z0 (targetZoom p m)
  end.

(** The last branch of the effect: the centre and zoom of the properties.
    The centre is an object, never [null], so that [!center] is false. *)
Definition applyCenter (p : Props) (rf : Refs) (m : Map L) : Run L :=
  if negb (isValidCoord (lat (center p)) (lng (center p))) then
    {| calls := []; refs := rf; map := m |}
  else if centerChanged p rf || zoomChanged p rf m then
    match setView L (lat (center p), lng (center p)) (targetZoom p m)
            centerOptions m with
    | Some m' =>
        {| calls := [SetView (lat (center p), lng (center p))
                       (targetZoom p m) centerOptions];
           refs := {| lastAppliedCenter := Some (center p);
                      lastAppliedZoom := Some (targetZoom p m) |};
           map := m' |}
    | None => {| calls := []; refs := rf; map := m |}
    end
  else {| calls := []; refs := rf; map := m |}.

(** The route branch: nothing catches what [latLngBounds] or [fitBounds]
    raise there. *)
Definition fitRoute (r : RouteData) (rf : Refs) (m : Map L)
  : option (Run L) :=
  match latLngBounds L (route_coordinates r) with
  | None => None
  | Some b =>
      if isValid L b then
        match fitBounds L b routeFitOptions m with
        | Some m' =>
            Some {| calls := [FitBounds (route_coordinates r) routeFitOptions];
                    refs := rf; map := m' |}
        | None => None
        end
      else Some {| calls := []; refs := rf; map := m |}
  end.

(** The effect of [MapUpdater]; [None] when it raises.  The effect starts
    with [map.invalidateSize()], which leaves the centre and the zoom of the
    map alone and has no counterpart here. *)
Definition MapUpdater (p : Props) (rf : Refs) (m : Map L) : option (Run L) :=
  match routeFitGuard p with
  | Some r => fitRoute r rf m
  | None =>
      match followGuard p with
      | Some u => Some (followUser u rf m)
      | None => Some (applyCenter p rf m)
      end
  end.

(** The click handler of [FitBoundsControl], over the places it is given; it
    catches what the library raises.  The component holds no reference: a
    run leaves the calls that went through and the map. *)
Definition FitBoundsControl (ps : list Place) (m : Map L)
  : option (list MapCall * Map L) :=
  let validPlaces :=
    filter (fun pl => isValidCoord (lat (coordinates pl))
                        (lng (coordinates pl))) ps in
  match validPlaces with
  | [] => Some ([], m)
  | _ :: _ =>
      let latLngs :=
        List.map (fun pl => (lat (coordinates pl), lng (coordinates pl)))
          validPlaces in
      match latLngBounds L latLngs with
      | Some b =>
          if isValid L b then
            match fitBounds L b showAllOptions m with
            | Some m' => Some ([FitBounds latLngs showAllOptions], m')
            | None => Some ([], m)
            end
          else Some ([], m)
      | None => Some ([], m)
      end
  end.

End Components.

(** ** The state of [App] that reaches the map, and its handlers *)

Record AppState := {
  mapCenter : Coordinates;
  mapZoom : number;
  gpsLocation : option Coordinates;
  manualLocation : option Coordinates;
  destinationLocation : option Coordinates;
  app_isNavigating : bool;
  app_isFollowingUser : bool;
  app_routeData : option RouteData
}.

(** [const userLocation = manualLocation || gpsLocation] *)
Definition app_userLocation (s : AppState) : option Coordinates :=
  match manualLocation s with
  | Some c => Some c
  | None => gpsLocation s
  end.

(** The properties [App] hands to the map. *)
Definition mapProps (s : AppState) : Props :=
  {| center := mapCenter s;
     zoom := Some (mapZoom s);
     userLocation := app_userLocation s;
     isNavigating := app_isNavigating s;
     routeData := app_routeData s;
     isFollowingUser := app_isFollowingUser s |}.

(** [handleMapDrag], the listener of [dragstart]. *)
Definition handleMapDrag (s : AppState) : AppState :=
  if app_isFollowingUser s then
    {| mapCenter := mapCenter s; mapZoom := mapZoom s;
       gpsLocation := gpsLocation s; manualLocation := manualLocation s;
       destinationLocation := destinationLocation s;
       app_isNavigating := app_isNavigating s;
       app_isFollowingUser := false;
       app_routeData := app_routeData s |}
  else s.


(** The success callback of [watchPosition]. *)
Definition onPosition (la ln acc : number) (s : AppState) : AppState :=
  if negb (isNaN la) && negb (isNaN ln) then
    {| mapCenter := mapCenter s; mapZoom := mapZoom s;
       gpsLocation := Some {| lat := la; lng := ln; accuracy := Some acc |};
       manualLocation := manualLocation s;
       destinationLocation := destinationLocation s;
       app_isNavigating := app_isNavigating s;
       app_isFollowingUser := app_isFollowingUser s;
       app_routeData := app_routeData s |}
  else s.

(** ** The modes of the specification

    The application keeps two flags, [isNavigating] and [isFollowingUser],
    where the specification has one persistent mode.  [handleStartTrip]
    raises both flags, and every handler that hands the camera back to the
    user, [handleMapDrag] among them, lowers [isFollowingUser] and nothing
    else.  The mode is read off the flags accordingly: the camera is Idle
    when the follow flag is down, and a camera that follows is Navigating
    when a trip has started and Following otherwise.  What the components do
    when a trip has started and the follow flag is down is stated apart
    ([trip_without_follow]). *)

Inductive Mode : Type := Idle | Following | Navigating.

Definition modeOf (navigating following : bool) : Mode :=
  if following then (if navigating then Navigating else Following) else Idle.

Definition propsMode (p : Props) : Mode :=
  modeOf (isNavigating p) (isFollowingUser p).


(** ** A map that does what it is asked

    The simplest map behind the interface, used to run the components on
    concrete inputs: it holds a centre and a zoom, [setView] stores its
    arguments, the bounds of a list of points are the list itself and are
    valid when it is not empty, and fitting bounds keeps the zoom and moves
    to the first point.  No call raises. *)

Definition idealMap : Leaflet :=
  {| Map := LatLngTuple * number;
     Bounds := list LatLngTuple;
     getCenter := fun m => fst m;
     getZoom := fun m => snd m;
     latLngBounds := fun pts => Some pts;
     isValid := fun b => match b with [] => false | _ => true end;
     setView := fun c z _ _ => Some (c, z);
     fitBounds := fun b _ m =>
       Some (match b with [] => fst m | c :: _ => c end, snd m) |}.

End Viewport.

Import Viewport.

(* ================================================================== *)
(** * The vocabulary of the statements about the viewport *)
(* ================================================================== *)

(** The properties [p] with other route data. *)
Definition withRouteData (r : option RouteData) (p : Props) : Props :=
  {| center := center p; zoom := zoom p; userLocation := userLocation p;
     isNavigating := isNavigating p; routeData := r;
     isFollowingUser := isFollowingUser p |}.

(** A call of the follow branch: it is the only one made with the duration
    of the smooth glide. *)
Definition isFollowCall (c : MapCall) : bool :=
  match c with
  | SetView _ _ o => strictEq (pan_duration o) (pan_duration followOptions)
  | FitBounds _ _ => false
  end.

Definition isFitCall (c : MapCall) : bool :=
  match c with
  | SetView _ _ _ => false
  | FitBounds _ _ => true
  end.


(* ================================================================== *)
(** * Sample data *)
(* ================================================================== *)

(** ** Texts *)

Definition ghostText : jsstring := lit "{{DATA:Ghost|0|0|Nowhere}}".

Definition realText : jsstring := lit "{{DATA:Real|0.0002|0.0002|Somewhere}}".

Definition orderText : jsstring :=
  lit "...{{DATA:A|1|1|x}}...{{DATA:B|2|2|y}}...".

Definition nestedText : jsstring := lit "{{DA{{DATA:a|1|2|b}}TA:x|1|1|y}}".

Definition overlapText : jsstring := lit "{{DATA:a|b|c|{{DATA:x}}y|1|2|z}}".

Definition localeText : jsstring := lit "{{DATA:C|40,71|-74,00|NY}}".

Definition bigText : jsstring := lit "{{DATA:Big|1000|999|far}}".

(** ** Positions *)

(** The number a decimal numeral denotes. *)
Definition degrees (s : string) : number := parseFloat (lit s).

Definition at_ (la ln : string) : Coordinates :=
  {| lat := degrees la; lng := degrees ln; accuracy := None |}.

(** A first GPS fix in New York; a second one two metres north of it, which
    is 0.000018 degrees of latitude; one 0.00008 degrees north and 0.00008
    degrees east of the first; and one about 800 metres north of it. *)
Definition firstFix : Coordinates := at_ "40.7128" "-74.0060".
Definition secondFix : Coordinates := at_ "40.712818" "-74.0060".
Definition diagonalFix : Coordinates := at_ "40.71288" "-74.00592".
Definition farFix : Coordinates := at_ "40.72" "-74.0060".

Definition sampleRoute : RouteData :=
  {| route_coordinates :=
       [(degrees "40.70", degrees "-74.01");
        (degrees "40.80", degrees "-73.95")];
     distance := ofZ 12000; duration := ofZ 900 |}.


(** ** Maps and references *)

(** The map on the default centre and zoom, and on New York. *)
Definition worldView : Map idealMap := ((degrees "0", degrees "0"), ofZ 2).

Definition cityView : Map idealMap :=
  ((degrees "40.7128", degrees "-74.0060"), ofZ 2).

(** The references before the first run of the effect, and as the first run
    leaves them, on the default centre and zoom. *)
Definition freshRefs : Refs :=
  {| lastAppliedCenter := None; lastAppliedZoom := None |}.

Definition mountedRefs : Refs :=
  {| lastAppliedCenter := Some (at_ "0" "0");
     lastAppliedZoom := Some (ofZ 2) |}.

(** ** Properties of [MapUpdater] *)

(** The camera follows the user and a route has been found. *)
Definition followingProps : Props :=
  {| center := at_ "40.7128" "-74.0060"; zoom := Some (ofZ 16);
     userLocation := Some (at_ "40.7128" "-74.0060");
     isNavigating := false; routeData := Some sampleRoute;
     isFollowingUser := true |}.

(** The camera follows the user, who is at [u]. *)
Definition followingAt (u : Coordinates) : Props :=
  {| center := at_ "40.7128" "-74.0060"; zoom := Some (ofZ 16);
     userLocation := Some u; isNavigating := false; routeData := None;
     isFollowingUser := true |}.


(** A trip has started and the follow flag was lowered. *)
Definition tripUnfollowed (r : option RouteData) (u : Coordinates) : Props :=
  {| center := at_ "40.7128" "-74.0060"; zoom := Some (ofZ 16);
     userLocation := Some u; isNavigating := true; routeData := r;
     isFollowingUser := false |}.

(** ** States of [App] *)




(* ================================================================== *)
(** * The call of the model (services/geminiService.ts) *)
(* ================================================================== *)

Module Service.

(** [GroundingChunk] of types.ts. *)
Record WebSource := {
  web_uri : jsstring;
  web_title : jsstring
}.

Record ReviewSnippet := {
  snippet_text : jsstring
}.

Record PlaceAnswerSources := {
  reviewSnippets : option (list ReviewSnippet)
}.

Record MapsSource := {
  maps_uri : jsstring;
  maps_title : jsstring;
  placeAnswerSources : option PlaceAnswerSources
}.

Record GroundingChunk := {
  web : option WebSource;
  maps : option MapsSource
}.

Inductive Role : Type := user | model.

(** [Partial<ChatMessage>]: each field may be missing. *)
Record ChatMessage := {
  msg_id : option jsstring;
  msg_role : option Role;
  msg_text : option jsstring;
  msg_isThinking : option bool;
  msg_places : option (list Place);
  msg_groundingChunks : option (list GroundingChunk)
}.

Record LatLng := {
  latitude : number;
  longitude : number
}.

(** The request of [generateContent], as far as it varies: the prompt and
    the [latLng] of the tool configuration.  The model, the system
    instruction and the [googleMaps] tool are the same in every request. *)
Record Request := {
  contents : jsstring;
  toolConfig : option LatLng
}.

(** What the call reads in the response: [response.text] and
    [response.candidates?.[0]?.groundingMetadata?.groundingChunks]. *)
Record Response := {
  response_text : option jsstring;
  response_groundingChunks : option (list GroundingChunk)
}.

Definition noInformation : jsstring :=
  lit "I couldn't find any information about that.".

(** [response.text || "I couldn't find any information about that."] *)
Definition rawText (response : Response) : jsstring :=
  match response_text response with
  | Some (c :: t) => c :: t
  | _ => noInformation
  end.

(** [userLocation ? { retrievalConfig: { latLng: ... } } : undefined] *)
Definition request (prompt : jsstring) (userLocation : option LatLng)
  : Request :=
  {| contents := prompt;
     toolConfig :=
       match userLocation with
       | Some u => Some {| latitude := latitude u; longitude := longitude u |}
       | None => None
       end |}.

Section Send.

Variable randomId : nat -> jsstring.

(** [client.models.generateContent]; [None] when the promise is rejected. *)
Variable generateContent : Request -> option Response.

(** [sendMessageToGemini]; [None] when it throws.  Whatever the [try] block
    raises is logged and thrown again. *)
Definition sendMessageToGemini (prompt : jsstring)
  (userLocation : option LatLng) : option ChatMessage :=
  match generateContent (request prompt userLocation) with
  | None => None
  | Some response =>
      match parseResponse randomId (rawText response) with
      | None => None
      | Some r =>
          Some {| msg_id := None;
                  msg_role := Some model;
                  msg_text := Some (cleanText r);
                  msg_isThinking := None;
                  msg_places := Some (places r);
                  msg_groundingChunks :=
                    Some (match response_groundingChunks response with
                          | Some chunks => chunks
                          | None => []
                          end) |}
      end
  end.

End Send.

End Service.

(* ================================================================== *)
(** * The events of the map and the routing control (components/Map.tsx) *)
(* ================================================================== *)

Module MapEvents.

(** The events [MapEventHandler] listens to, with what it reads in them:
    the map that moved, the position of a click. *)
Inductive LeafletEvent (L : Leaflet) : Type :=
| moveend (target : Map L)
| zoomend (target : Map L)
| click (latlng : LatLngTuple)
| dragstart.

Arguments moveend {L} _.
Arguments zoomend {L} _.
Arguments click {L} _.
Arguments dragstart {L}.

Section Handler.

Variable L : Leaflet.

(** The state of the parent component. *)
Variable St : Type.

Variable onMapChange : option (Coordinates -> number -> St -> St).
Variable onMapClick : option (Coordinates -> St -> St).
Variable onUserInteraction : option (St -> St).

(** [MapEventHandler]: what an event of the map does to the parent. *)
Definition MapEventHandler (e : LeafletEvent L) (s : St) : St :=
  match e with
  | moveend m | zoomend m =>
      match onMapChange with
      | Some f =>
          f {| lat := fst (getCenter L m); lng := snd (getCenter L m);
               accuracy := None |} (getZoom L m) s
      | None => s
      end
  | click ll =>
      match onMapClick with
      | Some f => f {| lat := fst ll; lng := snd ll; accuracy := None |} s
      | None => s
      end
  | dragstart =>
      match onUserInteraction with
      | Some f => f s
      | None => s
      end
  end.

End Handler.

End MapEvents.

Module Routing.

(** A routing control: the object [L.Routing.control] creates, known by the
    order of its creation, and its two waypoints. *)
Record Control := {
  control_id : nat;
  waypoints : LatLngTuple * LatLngTuple
}.

(** What [RoutingControl] asks of the map and of its control. *)
Inductive RoutingCall : Type :=
| AddTo (c : Control)
| SetWaypoints (control : nat) (w : LatLngTuple * LatLngTuple)
| RemoveControl (control : nat).

(** The component between two runs of its effect: the reference, the
    controls on the map, the number of controls created so far, whether the
    last run returned its cleanup, and the calls made so far. *)
Record Component := {
  routingControlRef : option nat;
  onMap : list Control;
  created : nat;
  cleanup : bool;
  trace : list RoutingCall
}.

Definition unmounted : Component :=
  {| routingControlRef := None; onMap := []; created := 0; cleanup := false;
     trace := [] |}.

(** [map.removeControl(routingControlRef.current);
    routingControlRef.current = null], under
    [if (routingControlRef.current)]. *)
Definition removeCurrent (s : Component) : Component :=
  match routingControlRef s with
  | Some c =>
      {| routingControlRef := None;
         onMap := filter (fun k => negb (Nat.eqb (control_id k) c)) (onMap s);
         created := created s; cleanup := cleanup s;
         trace := trace s ++ [RemoveControl c] |}
  | None => s
  end.

Definition withCleanup (b : bool) (s : Component) : Component :=
  {| routingControlRef := routingControlRef s; onMap := onMap s;
     created := created s; cleanup := b; trace := trace s |}.

(** The two ends of a route, when both are there and valid. *)
Definition ends (start end_ : option Coordinates)
  : option (LatLngTuple * LatLngTuple) :=
  match start, end_ with
  | Some a, Some b =>
      if isValidCoord (lat a) (lng a) && isValidCoord (lat b) (lng b)
      then Some ((lat a, lng a), (lat b, lng b))
      else None
  | _, _ => None
  end.

(** The body of the effect. *)
Definition effect (start end_ : option Coordinates) (s : Component)
  : Component :=
  match ends start end_ with
  | None => withCleanup false (removeCurrent s)
  | Some w =>
      match routingControlRef s with
      | None =>
          let c := {| control_id := created s; waypoints := w |} in
          {| routingControlRef := Some (created s);
             onMap := c :: onMap s;
             created := S (created s); cleanup := true;
             trace := trace s ++ [AddTo c] |}
      | Some c =>
          {| routingControlRef := Some c;
             onMap :=
               List.map (fun k => if Nat.eqb (control_id k) c
                                  then {| control_id := c; waypoints := w |}
                                  else k) (onMap s);
             created := created s; cleanup := true;
             trace := trace s ++ [SetWaypoints c w] |}
      end
  end.

(** The function the effect returns. *)
Definition runCleanup (s : Component) : Component :=
  if cleanup s then withCleanup false (removeCurrent s) else s.

(** What happens to the component when the map is rendered.  The map
    renders [RoutingControl] only without route data.  The effect runs on
    new properties after the cleanup of the run before; when the component
    goes its cleanup runs and its reference is lost. *)
Definition render (routeData : option RouteData)
  (userLocation destinationLocation : option Coordinates) (s : Component)
  : Component :=
  match routeData with
  | None => effect userLocation destinationLocation (runCleanup s)
  | Some _ =>
      let s' := runCleanup s in
      {| routingControlRef := None; onMap := onMap s'; created := created s';
         cleanup := false; trace := trace s' |}
  end.

(** The renders of a list, one after the other; each gives the route data,
    the user location and the destination of the map. *)
Definition renders
  (rs : list (option RouteData * option Coordinates * option Coordinates))
  (s : Component) : Component :=
  fold_left (fun s r => render (fst (fst r)) (snd (fst r)) (snd r) s) rs s.

(** Between two renders the reference and the map agree: either there is
    no control, or the reference holds the one control of the map and the
    cleanup is due. *)
Definition consistent (s : Component) : Prop :=
  match routingControlRef s with
  | None => onMap s = [] /\ cleanup s = false
  | Some c =>
      cleanup s = true
      /\ exists w, onMap s = [{| control_id := c; waypoints := w |}]
  end.

(** No waypoints were set so far. *)
Definition neverSet (s : Component) : Prop :=
  forall c w, ~ In (SetWaypoints c w) (trace s).

End Routing.

(* ================================================================== *)
(** * The route planner (components/RoutePlanner.tsx) *)
(* ================================================================== *)

Module Planner.

Record Suggestion := {
  display_name : jsstring;
  suggestion_lat : jsstring;
  suggestion_lon : jsstring
}.

(** ['start' | 'dest'] *)
Inductive Side : Type := start | dest.

(** A route of the answer of the router: its geometry, a list of
    [[lng, lat]] pairs, its distance and its duration. *)
Record OsrmRoute := {
  geometry : list (number * number);
  osrm_distance : number;
  osrm_duration : number
}.

(** The answer of the router: [data.routes]. *)
Record OsrmData := {
  routes : option (list OsrmRoute)
}.

(** The state of the component; [debounceTimer] holds the call of
    [fetchSuggestions] that waits for its half second. *)
Record State := {
  startQuery : jsstring;
  destQuery : jsstring;
  startCoords : option Coordinates;
  destCoords : option Coordinates;
  startSuggestions : list Suggestion;
  destSuggestions : list Suggestion;
  isLoading : bool;
  routeStats : option (number * number);
  debounceTimer : option (jsstring * Side)
}.

Definition setStartQuery (q : jsstring) (s : State) : State :=
  {| startQuery := q; destQuery := destQuery s;
     startCoords := startCoords s; destCoords := destCoords s;
     startSuggestions := startSuggestions s;
     destSuggestions := destSuggestions s; isLoading := isLoading s;
     routeStats := routeStats s; debounceTimer := debounceTimer s |}.

Definition setDestQuery (q : jsstring) (s : State) : State :=
  {| startQuery := startQuery s; destQuery := q;
     startCoords := startCoords s; destCoords := destCoords s;
     startSuggestions := startSuggestions s;
     destSuggestions := destSuggestions s; isLoading := isLoading s;
     routeStats := routeStats s; debounceTimer := debounceTimer s |}.

Definition setStartCoords (c : option Coordinates) (s : State) : State :=
  {| startQuery := startQuery s; destQuery := destQuery s;
     startCoords := c; destCoords := destCoords s;
     startSuggestions := startSuggestions s;
     destSuggestions := destSuggestions s; isLoading := isLoading s;
     routeStats := routeStats s; debounceTimer := debounceTimer s |}.

Definition setDestCoords (c : option Coordinates) (s : State) : State :=
  {| startQuery := startQuery s; destQuery := destQuery s;
     startCoords := startCoords s; destCoords := c;
     startSuggestions := startSuggestions s;
     destSuggestions := destSuggestions s; isLoading := isLoading s;
     routeStats := routeStats s; debounceTimer := debounceTimer s |}.

Definition setStartSuggestions (l : list Suggestion) (s : State) : State :=
  {| startQuery := startQuery s; destQuery := destQuery s;
     startCoords := startCoords s; destCoords := destCoords s;
     startSuggestions := l;
     destSuggestions := destSuggestions s; isLoading := isLoading s;
     routeStats := routeStats s; debounceTimer := debounceTimer s |}.

Definition setDestSuggestions (l : list Suggestion) (s : State) : State :=
  {| startQuery := startQuery s; destQuery := destQuery s;
     startCoords := startCoords s; destCoords := destCoords s;
     startSuggestions := startSuggestions s;
     destSuggestions := l; isLoading := isLoading s;
     routeStats := routeStats s; debounceTimer := debounceTimer s |}.

Definition setIsLoading (b : bool) (s : State) : State :=
  {| startQuery := startQuery s; destQuery := destQuery s;
     startCoords := startCoords s; destCoords := destCoords s;
     startSuggestions := startSuggestions s;
     destSuggestions := destSuggestions s; isLoading := b;
     routeStats := routeStats s; debounceTimer := debounceTimer s |}.

Definition setRouteStats (r : option (number * number)) (s : State) : State :=
  {| startQuery := startQuery s; destQuery := destQuery s;
     startCoords := startCoords s; destCoords := destCoords s;
     startSuggestions := startSuggestions s;
     destSuggestions := destSuggestions s; isLoading := isLoading s;
     routeStats := r; debounceTimer := debounceTimer s |}.

Definition setDebounceTimer (t : option (jsstring * Side)) (s : State)
  : State :=
  {| startQuery := startQuery s; destQuery := destQuery s;
     startCoords := startCoords s; destCoords := destCoords s;
     startSuggestions := startSuggestions s;
     destSuggestions := destSuggestions s; isLoading := isLoading s;
     routeStats := routeStats s; debounceTimer := t |}.

(** The state the component starts with, from its properties. *)
Definition opening (userLocation destinationLocation : option Coordinates)
  : State :=
  {| startQuery := []; destQuery := [];
     startCoords := userLocation; destCoords := destinationLocation;
     startSuggestions := []; destSuggestions := []; isLoading := false;
     routeStats := None; debounceTimer := None |}.

(** The effect on [userLocation]. *)
Definition syncUserLocation (userLocation : option Coordinates) (s : State)
  : State :=
  match userLocation, startQuery s with
  | Some u, [] => setStartQuery (lit "Current Location")
                    (setStartCoords (Some u) s)
  | _, _ => s
  end.

(** The effect on [destinationLocation]. *)
Definition syncDestination (destinationLocation : option Coordinates)
  (s : State) : State :=
  match destinationLocation with
  | Some d => setDestQuery (lit "Pinned Location") (setDestCoords (Some d) s)
  | None => s
  end.

Section Network.

(** The search of the geocoder for a query; [None] when the request or the
    reading of its answer fails. *)
Variable geocode : jsstring -> option (list Suggestion).

(** The router for two [lng, lat] pairs; [None] when the request or the
    reading of its answer fails. *)
Variable router : number * number -> number * number -> option OsrmData.

(** [fetchSuggestions] *)
Definition fetchSuggestions (query : jsstring) (type : Side) (s : State)
  : State :=
  if Nat.ltb (List.length query) 3 then
    match type with
    | start => setStartSuggestions [] s
    | dest => setDestSuggestions [] s
    end
  else
    match geocode query with
    | Some data =>
        match type with
        | start => setStartSuggestions data s
        | dest => setDestSuggestions data s
        end
    | None => s
    end.

(** [handleInput], for the value of the field. *)
Definition handleInput (val : jsstring) (type : Side) (s : State) : State :=
  setDebounceTimer (Some (val, type))
    match type with
    | start => setStartCoords None (setStartQuery val s)
    | dest => setDestCoords None (setDestQuery val s)
    end.

(** The timer runs out. *)
Definition timeout (s : State) : State :=
  match debounceTimer s with
  | Some (val, type) => fetchSuggestions val type (setDebounceTimer None s)
  | None => s
  end.

(** [handleSelect] *)
Definition handleSelect (suggestion : Suggestion) (type : Side) (s : State)
  : State :=
  let coords := {| lat := parseFloat (suggestion_lat suggestion);
                   lng := parseFloat (suggestion_lon suggestion);
                   accuracy := None |} in
  match type with
  | start =>
      setStartSuggestions []
        (setStartCoords (Some coords)
           (setStartQuery (display_name suggestion) s))
  | dest =>
      setDestSuggestions []
        (setDestCoords (Some coords)
           (setDestQuery (display_name suggestion) s))
  end.

(** [[coord[1], coord[0]]] *)
Definition flip (coord : number * number) : LatLngTuple :=
  (snd coord, fst coord).

(** What [handleStartJourney] leaves: the state, the arguments of
    [onRouteFound] when it was called, and whether the alert was shown. *)
Record Journey := {
  after : State;
  found : option (RouteData * Coordinates * Coordinates);
  alerted : bool
}.

(** [handleStartJourney] *)
Definition handleStartJourney (s : State) : Journey :=
  match startCoords s, destCoords s with
  | Some a, Some b =>
      match router (lng a, lat a) (lng b, lat b) with
      | Some data =>
          match routes data with
          | Some (r :: _) =>
              let routeData :=
                {| route_coordinates := List.map flip (geometry r);
                   distance := osrm_distance r;
                   duration := osrm_duration r |} in
              {| after :=
                   setIsLoading false
                     (setRouteStats (Some (osrm_distance r, osrm_duration r))
                        (setIsLoading true s));
                 found := Some (routeData, a, b);
                 alerted := false |}
          | _ =>
              {| after := setIsLoading false (setIsLoading true s);
                 found := None; alerted := false |}
          end
      | None =>
          {| after := setIsLoading false (setIsLoading true s);
             found := None; alerted := true |}
      end
  | _, _ => {| after := s; found := None; alerted := false |}
  end.

End Network.

End Planner.

(* ================================================================== *)
(** * The application (App.tsx) *)
(* ================================================================== *)

Module App.

Import Service.

(** ** The state that reaches the map, one field at a time *)

Definition setMapCenter (c : Coordinates) (s : AppState) : AppState :=
  {| mapCenter := c; mapZoom := mapZoom s;
     gpsLocation := gpsLocation s; manualLocation := manualLocation s;
     destinationLocation := destinationLocation s;
     app_isNavigating := app_isNavigating s;
     app_isFollowingUser := app_isFollowingUser s;
     app_routeData := app_routeData s |}.

Definition setMapZoom (z : number) (s : AppState) : AppState :=
  {| mapCenter := mapCenter s; mapZoom := z;
     gpsLocation := gpsLocation s; manualLocation := manualLocation s;
     destinationLocation := destinationLocation s;
     app_isNavigating := app_isNavigating s;
     app_isFollowingUser := app_isFollowingUser s;
     app_routeData := app_routeData s |}.

Definition setManualLocation (c : option Coordinates) (s : AppState)
  : AppState :=
  {| mapCenter := mapCenter s; mapZoom := mapZoom s;
     gpsLocation := gpsLocation s; manualLocation := c;
     destinationLocation := destinationLocation s;
     app_isNavigating := app_isNavigating s;
     app_isFollowingUser := app_isFollowingUser s;
     app_routeData := app_routeData s |}.

Definition setDestinationLocation (c : option Coordinates) (s : AppState)
  : AppState :=
  {| mapCenter := mapCenter s; mapZoom := mapZoom s;
     gpsLocation := gpsLocation s; manualLocation := manualLocation s;
     destinationLocation := c;
     app_isNavigating := app_isNavigating s;
     app_isFollowingUser := app_isFollowingUser s;
     app_routeData := app_routeData s |}.

Definition setIsFollowingUser (b : bool) (s : AppState) : AppState :=
  {| mapCenter := mapCenter s; mapZoom := mapZoom s;
     gpsLocation := gpsLocation s; manualLocation := manualLocation s;
     destinationLocation := destinationLocation s;
     app_isNavigating := app_isNavigating s;
     app_isFollowingUser := b;
     app_routeData := app_routeData s |}.

Definition setRouteData (r : option RouteData) (s : AppState) : AppState :=
  {| mapCenter := mapCenter s; mapZoom := mapZoom s;
     gpsLocation := gpsLocation s; manualLocation := manualLocation s;
     destinationLocation := destinationLocation s;
     app_isNavigating := app_isNavigating s;
     app_isFollowingUser := app_isFollowingUser s;
     app_routeData := r |}.

(** [handleMapChange] *)
Definition handleMapChange (center : Coordinates) (zoom : number)
  (s : AppState) : AppState :=
  setMapZoom zoom (setMapCenter center s).

(** ** The whole state *)

(** [AppState] of types.ts. *)
Inductive Status : Type := IDLE | LOADING | RESULTS | ERROR.

(** The two calls of [startLocationWatch], each with callbacks of its own:
    the one of the effect that runs when [App] mounts and the one of
    [handleManualLocate]. *)
Inductive Watch : Type := mountWatch | locateWatch.

(** The state of [App]: the part that reaches the map, the rest, and the
    position watches that were started; nothing in [App] stops one. *)
Record Screen := {
  view : AppState;
  appState : Status;
  app_places : list Place;
  selectedPlaceId : option jsstring;
  isRoutePlannerOpen : bool;
  isLocating : bool;
  query : jsstring;
  aiResponseText : option jsstring;
  errorText : option jsstring;
  watches : list Watch
}.

Definition onView (f : AppState -> AppState) (a : Screen) : Screen :=
  {| view := f (view a); appState := appState a;
     app_places := app_places a; selectedPlaceId := selectedPlaceId a;
     isRoutePlannerOpen := isRoutePlannerOpen a; isLocating := isLocating a;
     query := query a; aiResponseText := aiResponseText a;
     errorText := errorText a; watches := watches a |}.

Definition setAppState (x : Status) (a : Screen) : Screen :=
  {| view := view a; appState := x;
     app_places := app_places a; selectedPlaceId := selectedPlaceId a;
     isRoutePlannerOpen := isRoutePlannerOpen a; isLocating := isLocating a;
     query := query a; aiResponseText := aiResponseText a;
     errorText := errorText a; watches := watches a |}.

Definition setPlaces (x : list Place) (a : Screen) : Screen :=
  {| view := view a; appState := appState a;
     app_places := x; selectedPlaceId := selectedPlaceId a;
     isRoutePlannerOpen := isRoutePlannerOpen a; isLocating := isLocating a;
     query := query a; aiResponseText := aiResponseText a;
     errorText := errorText a; watches := watches a |}.

Definition setSelectedPlaceId (x : option jsstring) (a : Screen) : Screen :=
  {| view := view a; appState := appState a;
     app_places := app_places a; selectedPlaceId := x;
     isRoutePlannerOpen := isRoutePlannerOpen a; isLocating := isLocating a;
     query := query a; aiResponseText := aiResponseText a;
     errorText := errorText a; watches := watches a |}.

Definition setIsRoutePlannerOpen (x : bool) (a : Screen) : Screen :=
  {| view := view a; appState := appState a;
     app_places := app_places a; selectedPlaceId := selectedPlaceId a;
     isRoutePlannerOpen := x; isLocating := isLocating a;
     query := query a; aiResponseText := aiResponseText a;
     errorText := errorText a; watches := watches a |}.

Definition setIsLocating (x : bool) (a : Screen) : Screen :=
  {| view := view a; appState := appState a;
     app_places := app_places a; selectedPlaceId := selectedPlaceId a;
     isRoutePlannerOpen := isRoutePlannerOpen a; isLocating := x;
     query := query a; aiResponseText := aiResponseText a;
     errorText := errorText a; watches := watches a |}.

Definition setQuery (x : jsstring) (a : Screen) : Screen :=
  {| view := view a; appState := appState a;
     app_places := app_places a; selectedPlaceId := selectedPlaceId a;
     isRoutePlannerOpen := isRoutePlannerOpen a; isLocating := isLocating a;
     query := x; aiResponseText := aiResponseText a;
     errorText := errorText a; watches := watches a |}.

Definition setAiResponseText (x : option jsstring) (a : Screen) : Screen :=
  {| view := view a; appState := appState a;
     app_places := app_places a; selectedPlaceId := selectedPlaceId a;
     isRoutePlannerOpen := isRoutePlannerOpen a; isLocating := isLocating a;
     query := query a; aiResponseText := x;
     errorText := errorText a; watches := watches a |}.

Definition setErrorText (x : option jsstring) (a : Screen) : Screen :=
  {| view := view a; appState := appState a;
     app_places := app_places a; selectedPlaceId := selectedPlaceId a;
     isRoutePlannerOpen := isRoutePlannerOpen a; isLocating := isLocating a;
     query := query a; aiResponseText := aiResponseText a;
     errorText := x; watches := watches a |}.

(** [navigator.geolocation.watchPosition] with the callbacks of [w]. *)
Definition watchPosition (w : Watch) (a : Screen) : Screen :=
  {| view := view a; appState := appState a;
     app_places := app_places a; selectedPlaceId := selectedPlaceId a;
     isRoutePlannerOpen := isRoutePlannerOpen a; isLocating := isLocating a;
     query := query a; aiResponseText := aiResponseText a;
     errorText := errorText a; watches := watches a ++ [w] |}.

(** [App] before its first render: the initial values of its states. *)
Definition initial : Screen :=
  {| view :=
       {| mapCenter := {| lat := ofZ 0; lng := ofZ 0; accuracy := None |};
          mapZoom := ofZ 2;
          gpsLocation := None; manualLocation := None;
          destinationLocation := None; app_isNavigating := false;
          app_isFollowingUser := false; app_routeData := None |};
     appState := IDLE; app_places := []; selectedPlaceId := None;
     isRoutePlannerOpen := false; isLocating := false; query := [];
     aiResponseText := None; errorText := None; watches := [] |}.

(** Two strings have the same code units: [===] on strings. *)
Fixpoint sameString (a b : jsstring) : bool :=
  match a, b with
  | [], [] => true
  | x :: a', y :: b' => N.eqb x y && sameString a' b'
  | _, _ => false
  end.

Section Handlers.

(** Whether [navigator.geolocation] is there. *)
Variable hasGeolocation : bool.

(** The sentence [`Route found! ${Math.round(route.distance / 1000)}km,
    ${Math.round(route.duration / 60)} mins.`] for a distance and a
    duration; how the two numbers are printed is left open. *)
Variable routeFoundText : number -> number -> jsstring.

(** The callbacks a watch was started with: [onSuccess] and [onError]. *)
Definition onSuccess (w : Watch) (coords : Coordinates) (a : Screen)
  : Screen :=
  match w with
  | mountWatch => a
  | locateWatch =>
      setSelectedPlaceId None
        (setAiResponseText (Some (lit "Located you successfully."))
           (onView (fun s => setIsFollowingUser true
                               (setMapZoom (ofZ 16) (setMapCenter coords s)))
              a))
  end.

Definition onError (w : Watch) (msg : jsstring) (a : Screen) : Screen :=
  match w with
  | mountWatch => a
  | locateWatch => setAiResponseText (Some msg) a
  end.

(** [startLocationWatch] *)
Definition startLocationWatch (w : Watch) (a : Screen) : Screen :=
  if hasGeolocation
  then watchPosition w (setErrorText None (setIsLocating true a))
  else onError w (lit "Geolocation is not supported by your browser.") a.

(** The success callback [startLocationWatch] hands to [watchPosition]. *)
Definition positionSuccess (w : Watch) (la ln acc : number) (a : Screen)
  : Screen :=
  setIsLocating false
    (if negb (isNaN la) && negb (isNaN ln)
     then onSuccess w {| lat := la; lng := ln; accuracy := Some acc |}
            (onView (onPosition la ln acc) a)
     else a).

(** The error callback, for the code of the error. *)
Definition positionError (w : Watch) (code : N) (a : Screen) : Screen :=
  let msg := lit "Unable to retrieve your location." in
  let msg :=
    if N.eqb code 1
    then lit "Location access denied. Please enable permissions." else msg in
  let msg :=
    if N.eqb code 3 then lit "Location request timed out." else msg in
  setIsLocating false (onError w msg a).

(** The effect that runs when [App] mounts. *)
Definition mount (a : Screen) : Screen := startLocationWatch mountWatch a.

(** Centre on the GPS position, when there is one:
    [if (gpsLocation) { setMapCenter(gpsLocation); setMapZoom(16); }] *)
Definition centerOnGps (gps : option Coordinates) (s : AppState) : AppState :=
  match gps with
  | Some g => setMapZoom (ofZ 16) (setMapCenter g s)
  | None => s
  end.

(** [handleManualLocate] *)
Definition handleManualLocate (a : Screen) : Screen :=
  let s := view a in
  match manualLocation s with
  | Some _ =>
      onView (centerOnGps (gpsLocation s))
        (onView (setIsFollowingUser true)
           (setAiResponseText (Some (lit "Switched back to GPS location."))
              (onView (setManualLocation None) a)))
  | None =>
      let a1 :=
        if app_isFollowingUser s then
          setAiResponseText (Some (lit "Stopped following your location."))
            (onView (setIsFollowingUser false) a)
        else
          onView (centerOnGps (gpsLocation s))
            (setAiResponseText (Some (lit "Following your location."))
               (onView (setIsFollowingUser true) a)) in
      match gpsLocation s with
      | None => startLocationWatch locateWatch a1
      | Some _ => a1
      end
  end.

(** [handleRouteFound] *)
Definition handleRouteFound (route : RouteData) (start end_ : Coordinates)
  (a : Screen) : Screen :=
  setAiResponseText
    (Some (routeFoundText (distance route) (duration route)))
    (onView (fun s => setDestinationLocation (Some end_)
                        (setManualLocation (Some start)
                           (setRouteData (Some route) s))) a).

(** [handleSearch] up to the call of the model: nothing for a blank query;
    otherwise the state while the call is out, and its arguments. *)
Definition searchStart (a : Screen)
  : option (Screen * (jsstring * option LatLng)) :=
  match trim (query a) with
  | [] => None
  | userQuery =>
      Some (onView (setIsFollowingUser false)
              (setErrorText None
                 (setSelectedPlaceId None
                    (setAiResponseText None (setAppState LOADING a)))),
            (userQuery,
             match app_userLocation (view a) with
             | Some u => Some {| latitude := lat u; longitude := lng u |}
             | None => None
             end))
  end.

(** [handleSearch] from the answer of the model on; [None] is a call that
    threw. *)
Definition searchEnd (answer : option ChatMessage) (a : Screen) : Screen :=
  match answer with
  | Some response =>
      let a1 :=
        setAiResponseText
          (Some (match msg_text response with
                 | Some (c :: t) => c :: t
                 | _ => lit "Here is what I found."
                 end)) a in
      let a2 :=
        match msg_places response with
        | Some (firstPlace :: rest) =>
            let a' := setPlaces (firstPlace :: rest) a1 in
            if negb (isNaN (lat (coordinates firstPlace)))
            then onView (fun s => setMapZoom (ofZ 14)
                                    (setMapCenter (coordinates firstPlace) s))
                   a'
            else a'
        | Some [] => setPlaces [] a1
        | None => a1
        end in
      setAppState RESULTS a2
  | None =>
      setAiResponseText
        (Some (lit "I encountered an error. Please try again."))
        (setAppState ERROR a)
  end.

(** [handleSearch], when nothing else happens while the call is out. *)
Definition handleSearch
  (sendMessage : jsstring -> option LatLng -> option ChatMessage)
  (a : Screen) : Screen :=
  match searchStart a with
  | Some (a1, (userQuery, locationForSearch)) =>
      searchEnd (sendMessage userQuery locationForSearch) a1
  | None => a
  end.

(** [handlePlaceSelect]; the scrolling of the card has no part in the
    state. *)
Definition handlePlaceSelect (placeId : jsstring) (a : Screen) : Screen :=
  let a1 :=
    onView (setIsFollowingUser false)
      (setSelectedPlaceId (Some placeId) a) in
  match find (fun p => sameString (id p) placeId) (app_places a) with
  | Some place =>
      if negb (isNaN (lat (coordinates place)))
      then onView (fun s => setMapZoom (ofZ 16)
                              (setMapCenter (coordinates place) s)) a1
      else a1
  | None => a1
  end.

(** The [onMapClick] of the map. *)
Definition handleMapClick (coords : Coordinates) (a : Screen) : Screen :=
  onView (setIsFollowingUser false)
    (setAiResponseText
       (Some (lit "Destination pinned! Click 'Start Journey' to route."))
       (setIsRoutePlannerOpen true
          (onView (setDestinationLocation (Some coords)) a))).

(** The [onCancel] of the route planner. *)
Definition handleCancel (a : Screen) : Screen :=
  onView (fun s => setDestinationLocation None (setRouteData None s))
    (setIsRoutePlannerOpen false a).

(** ** What can happen to the application

    Every callback the components are given, and the callbacks of the
    position watches.  [handleLocationSelect], [handleLocationClear] and
    [handleStartTrip] are defined in [App] and handed to no component. *)
Inductive Event : Type :=
| LocatePressed
| MapMoved (center : Coordinates) (zoom : number)
| MapClicked (coords : Coordinates)
| MapDragged
| PlaceSelected (placeId : jsstring)
| SearchSubmitted
| SearchAnswered (answer : option ChatMessage)
| RouteFound (route : RouteData) (start end_ : Coordinates)
| PlannerCancelled
| PlannerToggled
| QueryChanged (q : jsstring)
| ToastDismissed
| PositionReported (w : Watch) (la ln acc : number)
| PositionFailed (w : Watch) (code : N).

Definition watching (w : Watch) (a : Screen) : bool :=
  existsb (fun w' => match w, w' with
                     | mountWatch, mountWatch | locateWatch, locateWatch =>
                         true
                     | _, _ => false
                     end) (watches a).

Definition step (e : Event) (a : Screen) : Screen :=
  match e with
  | LocatePressed => handleManualLocate a
  | MapMoved c z => onView (handleMapChange c z) a
  | MapClicked c => handleMapClick c a
  | MapDragged => onView handleMapDrag a
  | PlaceSelected i => handlePlaceSelect i a
  | SearchSubmitted =>
      match searchStart a with
      | Some (a1, _) => a1
      | None => a
      end
  | SearchAnswered r => searchEnd r a
  | RouteFound r s e => handleRouteFound r s e a
  | PlannerCancelled => handleCancel a
  | PlannerToggled => setIsRoutePlannerOpen (negb (isRoutePlannerOpen a)) a
  | QueryChanged q => setQuery q a
  | ToastDismissed => setAiResponseText None a
  | PositionReported w la ln acc =>
      if watching w a then positionSuccess w la ln acc a else a
  | PositionFailed w code =>
      if watching w a then positionError w code a else a
  end.

(** The events of a list, one after the other. *)
Definition run (es : list Event) (a : Screen) : Screen :=
  fold_left (fun a e => step e a) es a.

(** The application once mounted. *)
Definition mounted : Screen := mount initial.

End Handlers.

(** The listeners [App] gives the map, as [MapEventHandler] sees them. *)
Definition mapEvent {L : Leaflet} (e : MapEvents.LeafletEvent L)
  : Screen -> Screen :=
  MapEvents.MapEventHandler L Screen
    (Some (fun c z => onView (handleMapChange c z)))
    (Some handleMapClick)
    (Some (onView handleMapDrag)) e.

End App.

(* ================================================================== *)
(** * The vocabulary of the statements about the application *)
(* ================================================================== *)


(** The positions of a list of places, as [[lat, lng]] pairs. *)
Definition pointsOf (ps : list Place) : list LatLngTuple :=
  List.map (fun pl => (lat (coordinates pl), lng (coordinates pl))) ps.

(** The events that leave the manual start alone: all but the locate button
    and a route of the planner. *)
Definition keepsStart (e : App.Event) : bool :=
  match e with
  | App.LocatePressed | App.RouteFound _ _ _ => false
  | _ => true
  end.


(** The effect of the planner on [userLocation], for the positions of a
    list, one after the other. *)
Definition positionsSeen (us : list Coordinates) (s : Planner.State)
  : Planner.State :=
  fold_left (fun s u => Planner.syncUserLocation (Some u) s) us s.

(* ================================================================== *)
(** * Sample data for the application *)
(* ================================================================== *)

(** A model that answers every request with the text of two places. *)
Definition twoPlaces : Service.Request -> option Service.Response :=
  fun _ => Some {| Service.response_text := Some orderText;
                   Service.response_groundingChunks := None |}.

(** The application once mounted, with a query typed in. *)
Definition asking : App.Screen :=
  App.setQuery (lit " cafes ") (App.mounted true).

(** The sentence about a route, left empty. *)
Definition noText : number -> number -> jsstring := fun _ _ => [].

(** A router that knows one route of three points, given as [[lng, lat]]. *)
Definition oneRoute
  : number * number -> number * number -> option Planner.OsrmData :=
  fun _ _ =>
    Some {| Planner.routes :=
              Some [{| Planner.geometry :=
                         [(degrees "-74.0060", degrees "40.7128");
                          (degrees "-74.00", degrees "40.75");
                          (degrees "-73.95", degrees "40.80")];
                       Planner.osrm_distance := ofZ 12000;
                       Planner.osrm_duration := ofZ 900 |}] |}.

(** The planner with both ends chosen. *)
Definition readyPlanner : Planner.State :=
  Planner.setDestCoords (Some (at_ "40.80" "-73.95"))
    (Planner.opening (Some firstFix) None).

(* ================================================================== *)
(** * Numbers: comparison and subtraction *)
(* ================================================================== *)

Section NumberFacts.

Local Open Scope Z_scope.

Lemma SFcompare_antisym (a b : number) :
  SFcompare b a = option_map CompOpp (SFcompare a b).
Proof.
  destruct a as [sa|sa| |sa ma ea], b as [sb|sb| |sb mb eb]; simpl;
    try reflexivity;
    try (destruct sa; reflexivity); try (destruct sb; reflexivity);
    try (destruct sa, sb; reflexivity).
  pose proof (Pos.compare_cont_antisym ma mb Eq) as Hm. simpl in Hm.
  destruct sa, sb; simpl; try reflexivity;
    rewrite (Z.compare_antisym ea eb);
    destruct (ea ?= eb) eqn:E; simpl; try reflexivity;
    rewrite <- Hm; try reflexivity.
Qed.

Lemma SFcompare_some (a b : number) :
  isNaN a = false -> isNaN b = false -> exists c, SFcompare a b = Some c.
Proof.
  destruct a, b; simpl; intros; try discriminate; eauto.
Qed.

(** On numbers, [a > b] is the negation of [a <= b] unless one is NaN. *)
Lemma gt_not_le (a b : number) :
  isNaN a = false -> isNaN b = false -> gt a b = negb (le a b).
Proof.
  unfold gt, le, SFltb, SFleb. intros Ha Hb.
  rewrite (SFcompare_antisym a b).
  destruct (SFcompare_some a b Ha Hb) as [c ->].
  destruct c; reflexivity.
Qed.

Lemma SFcompare_refl (x : number) :
  isNaN x = false -> SFcompare x x = Some Eq.
Proof.
  destruct x as [s|s| |s m e]; simpl; try discriminate; intros _;
    try (destruct s; reflexivity).
  destruct s; rewrite Z.compare_refl, Pos.compare_cont_refl; reflexivity.
Qed.

(** [x !== x] fails for every number but NaN. *)
Lemma strictNeq_same (x : number) : isNaN x = false -> strictNeq x x = false.
Proof.
  intros H. unfold strictNeq, SFeqb. rewrite (SFcompare_refl x H). reflexivity.
Qed.

(** A finite number minus itself is zero. *)
Lemma sub_same (x : number) :
  isNaN x = false -> isFinite x = true -> sub x x = S754_zero false.
Proof.
  destruct x as [s|s| |s m e]; simpl; try discriminate; intros _ _.
  - destruct s; reflexivity.
  - unfold sub, SFsub. rewrite Z.min_id. unfold shl_align.
    rewrite Z.sub_diag. reflexivity.
Qed.

End NumberFacts.

(* ================================================================== *)
(** * Strings: trimming and the decimal comma *)
(* ================================================================== *)

Section StringFacts.

Lemma trimStart_white (w s : jsstring) :
  allWhite w = true -> trimStart (w ++ s) = trimStart s.
Proof.
  unfold allWhite. induction w as [|c w IH]; simpl; intros H; [reflexivity|].
  apply andb_prop in H as [Hc Hw]. rewrite Hc. auto.
Qed.

Lemma trimStart_solid (a : jsstring) (c : N) (b : jsstring) :
  isWhiteSpace c = false -> trimStart (a ++ c :: b) = trimStart a ++ c :: b.
Proof.
  intros Hc. induction a as [|x a IH]; cbn [trimStart app].
  - rewrite Hc. reflexivity.
  - destruct (isWhiteSpace x); [exact IH|reflexivity].
Qed.

Lemma forallb_rev (P : N -> bool) (s : jsstring) :
  forallb P (rev s) = forallb P s.
Proof.
  induction s as [|c s IH]; [reflexivity|].
  cbn [rev forallb]. rewrite forallb_app, IH. cbn [forallb].
  rewrite andb_true_r. apply andb_comm.
Qed.

Lemma trimEnd_white (s w : jsstring) :
  allWhite w = true -> trimEnd (s ++ w) = trimEnd s.
Proof.
  intros H. unfold trimEnd. rewrite rev_app_distr, trimStart_white;
    [reflexivity|].
  unfold allWhite. rewrite forallb_rev. exact H.
Qed.

Lemma trimEnd_solid (a : jsstring) (c : N) (b : jsstring) :
  isWhiteSpace c = false -> trimEnd (a ++ c :: b) = a ++ c :: trimEnd b.
Proof.
  intros Hc. unfold trimEnd.
  rewrite rev_app_distr. cbn [rev]. rewrite <- app_assoc. cbn [app].
  rewrite (trimStart_solid _ _ _ Hc), rev_app_distr. cbn [rev].
  rewrite rev_involutive, <- app_assoc. reflexivity.
Qed.

Lemma trimEnd_nil : trimEnd [] = [].
Proof. reflexivity. Qed.

(** White space around a field does not change what [trim] returns. *)
Lemma trim_padded (w1 s w2 : jsstring) :
  allWhite w1 = true -> allWhite w2 = true ->
  trim (w1 ++ s ++ w2) = trim s.
Proof.
  intros H1 H2. unfold trim. rewrite (trimStart_white w1 _ H1).
  destruct (trimStart s) as [|c r] eqn:E.
  - assert (Hs : allWhite s = true).
    { clear - E. unfold allWhite. induction s as [|x s IH]; [reflexivity|].
      cbn [trimStart] in E. cbn [forallb].
      destruct (isWhiteSpace x); [auto|discriminate]. }
    rewrite (trimStart_white s _ Hs).
    replace (trimStart w2) with (@nil N); [reflexivity|].
    clear - H2. unfold allWhite in H2.
    induction w2 as [|x w IH]; [reflexivity|]. cbn [forallb] in H2.
    apply andb_prop in H2 as [Hx Hw]. cbn [trimStart]. rewrite Hx. auto.
  - assert (Hc : isWhiteSpace c = false /\ exists a, s = a ++ c :: r).
    { clear - E. induction s as [|x s IH]; [discriminate|].
      cbn [trimStart] in E. destruct (isWhiteSpace x) eqn:X.
      - destruct (IH E) as [Hc [a ->]]. split; [exact Hc|].
        exists (x :: a). reflexivity.
      - inversion E; subst. split; [exact X|]. exists []. reflexivity. }
    destruct Hc as [Hc [a ->]].
    rewrite <- app_assoc. cbn [app].
    rewrite (trimStart_solid a c (r ++ w2) Hc).
    rewrite (trimStart_solid a c r Hc) in E.
    replace (trimStart a ++ c :: r ++ w2)
      with ((trimStart a ++ c :: r) ++ w2)
      by (rewrite <- app_assoc; reflexivity).
    rewrite E. apply trimEnd_white. exact H2.
Qed.

(** Around a code unit that is not white space, [trim] works on each side. *)
Lemma trim_solid (a : jsstring) (c : N) (b : jsstring) :
  isWhiteSpace c = false ->
  trim (a ++ c :: b) = trimStart a ++ c :: trimEnd b.
Proof.
  intros Hc. unfold trim.
  rewrite (trimStart_solid a c b Hc). apply (trimEnd_solid _ c b Hc).
Qed.

Lemma avoids_app (x : ascii) (a b : jsstring) :
  avoids x (a ++ b) = avoids x a && avoids x b.
Proof. apply forallb_app. Qed.

Lemma avoids_trimStart (x : ascii) (s : jsstring) :
  avoids x s = true -> avoids x (trimStart s) = true.
Proof.
  unfold avoids. induction s as [|c s IH]; [reflexivity|].
  intros H. cbn [trimStart]. destruct (isWhiteSpace c); [|exact H].
  cbn [forallb] in H. apply andb_prop in H as [_ H]. auto.
Qed.

Lemma avoids_trimEnd (x : ascii) (s : jsstring) :
  avoids x s = true -> avoids x (trimEnd s) = true.
Proof.
  unfold trimEnd, avoids. intros H.
  rewrite forallb_rev. apply (avoids_trimStart x).
  unfold avoids. rewrite forallb_rev. exact H.
Qed.

Lemma avoids_white (x : ascii) (w : jsstring) :
  isWhiteSpace (ch x) = false -> allWhite w = true -> avoids x w = true.
Proof.
  unfold allWhite, avoids. intros Hx.
  induction w as [|c w IH]; [reflexivity|]. cbn [forallb]. intros H.
  apply andb_prop in H as [Hc Hw]. rewrite (IH Hw), andb_true_r.
  unfold notChar. destruct (N.eqb c (ch x)) eqn:E; [|reflexivity].
  apply N.eqb_eq in E. subst c. congruence.
Qed.

(** [replace(',', '.')] turns the first comma into a point and leaves a
    text without comma as it is. *)
Lemma replaceFirst_none (s : jsstring) :
  avoids "," s = true -> replaceFirst (ch ",") (ch ".") s = s.
Proof.
  unfold avoids. induction s as [|c s IH]; [reflexivity|].
  cbn [forallb replaceFirst]. intros H. apply andb_prop in H as [Hc Hs].
  unfold notChar in Hc. destruct (N.eqb c (ch ",")); [discriminate|].
  f_equal. auto.
Qed.

Lemma replaceFirst_comma (a b : jsstring) :
  avoids "," a = true ->
  replaceFirst (ch ",") (ch ".") (a ++ ch "," :: b) = a ++ ch "." :: b.
Proof.
  unfold avoids. induction a as [|c a IH]; [reflexivity|].
  cbn [forallb replaceFirst app]. intros H. apply andb_prop in H as [Hc Ha].
  unfold notChar in Hc. destruct (N.eqb c (ch ",")); [discriminate|].
  f_equal. auto.
Qed.

(** A numeric field written with a decimal comma is read as the same field
    written with a decimal point. *)
Lemma decimal_comma (w1 i f w2 : jsstring) :
  allWhite w1 = true -> allWhite w2 = true ->
  avoids "," i = true -> avoids "," f = true ->
  replaceFirst (ch ",") (ch ".") (trim (w1 ++ (i ++ ch "," :: f) ++ w2))
  = replaceFirst (ch ",") (ch ".") (trim (i ++ ch "." :: f)).
Proof.
  intros H1 H2 Hi Hf.
  rewrite (trim_padded w1 _ w2 H1 H2).
  rewrite (trim_solid i (ch ",") f eq_refl).
  rewrite (trim_solid i (ch ".") f eq_refl).
  rewrite (replaceFirst_comma _ _ (avoids_trimStart "," i Hi)).
  symmetry. apply replaceFirst_none.
  rewrite avoids_app, (avoids_trimStart "," i Hi). cbn [andb].
  unfold avoids. cbn [forallb]. fold (avoids "," (trimEnd f)).
  rewrite (avoids_trimEnd "," f Hf). reflexivity.
Qed.

End StringFacts.

(* ================================================================== *)
(** * The regular expression matches exactly the well-formed tags *)
(* ================================================================== *)

Section RegexFacts.

Lemma stripPrefix_app (p r : jsstring) : stripPrefix p (p ++ r) = Some r.
Proof.
  induction p as [|a p IH]; simpl; [reflexivity|].
  rewrite N.eqb_refl. exact IH.
Qed.

Lemma stripPrefix_inv (p s r : jsstring) :
  stripPrefix p s = Some r -> s = p ++ r.
Proof.
  revert s. induction p as [|a p IH]; simpl; intros s H.
  - congruence.
  - destruct s as [|b s]; [discriminate|].
    destruct (N.eqb a b) eqn:E; [|discriminate].
    apply N.eqb_eq in E. subst b. f_equal. auto.
Qed.

(** A lazy group stops at the first place where the rest of the pattern
    matches; what it took lies in its class. *)
Lemma lazyGroup_inv (cls : N -> bool) (k : Cont) :
  forall s acc res rest,
    lazyGroup cls k acc s = Some (res, rest) ->
    exists g s' caps,
      s = g ++ s' /\ res = (rev acc ++ g) :: caps
      /\ forallb cls g = true /\ k s' = Some (caps, rest).
Proof.
  induction s as [|c s IH]; intros acc res rest H; simpl in H.
  - destruct (k []) as [[caps r]|] eqn:K; [|discriminate].
    inversion H; subst. exists [], [], caps.
    rewrite !app_nil_r. repeat split; auto.
  - destruct (k (c :: s)) as [[caps r]|] eqn:K.
    + inversion H; subst. exists [], (c :: s), caps.
      rewrite !app_nil_r. repeat split; auto.
    + destruct (cls c) eqn:C; [|discriminate].
      destruct (IH _ _ _ H) as (g & s' & caps & -> & -> & Hg & Hk).
      exists (c :: g), s', caps. simpl. rewrite C, Hg.
      rewrite <- app_assoc. repeat split; auto.
Qed.

(** When the rest of the pattern cannot start on a code unit of the class,
    the group takes the whole run [g] before a match of the rest. *)
Lemma lazyGroup_run (cls : N -> bool) (k : Cont) :
  (forall c s, cls c = true -> k (c :: s) = None) ->
  forall g s acc caps rest,
    forallb cls g = true ->
    k s = Some (caps, rest) ->
    lazyGroup cls k acc (g ++ s) = Some ((rev acc ++ g) :: caps, rest).
Proof.
  intros Hk. induction g as [|c g IH]; intros s acc caps rest Hg Hs.
  - simpl. rewrite app_nil_r.
    destruct s; simpl; rewrite Hs; reflexivity.
  - simpl in Hg. apply andb_prop in Hg as [Hc Hg].
    simpl. rewrite (Hk c (g ++ s) Hc), Hc.
    rewrite (IH s (c :: acc) caps rest Hg Hs).
    simpl. rewrite <- app_assoc. reflexivity.
Qed.

Lemma matchHere_lit (l : jsstring) (p : Pattern) (s : jsstring) :
  matchHere (Lit l :: p) (l ++ s) = matchHere p s.
Proof. simpl. rewrite stripPrefix_app. reflexivity. Qed.

Lemma matchHere_lit_inv (l : jsstring) (p : Pattern) (s : jsstring) caps rest :
  matchHere (Lit l :: p) s = Some (caps, rest) ->
  exists s', s = l ++ s' /\ matchHere p s' = Some (caps, rest).
Proof.
  simpl. destruct (stripPrefix l s) as [s'|] eqn:E; [|discriminate].
  intros H. exists s'. split; [apply stripPrefix_inv; exact E|exact H].
Qed.

Lemma literal_blocks (a : ascii) (l : jsstring) (p : Pattern) :
  forall c s, notChar a c = true ->
    matchHere (Lit (ch a :: l) :: p) (c :: s) = None.
Proof.
  intros c s H. simpl. unfold notChar in H.
  rewrite N.eqb_sym.
  destruct (N.eqb c (ch a)); [discriminate|reflexivity].
Qed.

Lemma matchHere_group (a : ascii) (l : jsstring) (p : Pattern)
  (g s : jsstring) caps rest :
  forallb (notChar a) g = true ->
  matchHere (Lit (ch a :: l) :: p) s = Some (caps, rest) ->
  matchHere (LazyGroup (notChar a) :: Lit (ch a :: l) :: p) (g ++ s)
  = Some (g :: caps, rest).
Proof.
  intros Hg Hs.
  change (lazyGroup (notChar a) (matchHere (Lit (ch a :: l) :: p)) [] (g ++ s)
          = Some (g :: caps, rest)).
  apply (lazyGroup_run _ _ (literal_blocks a l p) g s [] caps rest Hg Hs).
Qed.

Lemma matchHere_group_inv (cls : N -> bool) (p : Pattern) (s : jsstring)
  res rest :
  matchHere (LazyGroup cls :: p) s = Some (res, rest) ->
  exists g s' caps,
    s = g ++ s' /\ res = g :: caps /\ forallb cls g = true
    /\ matchHere p s' = Some (caps, rest).
Proof.
  intros H.
  change (lazyGroup cls (matchHere p) [] s = Some (res, rest)) in H.
  apply lazyGroup_inv in H. exact H.
Qed.

(** The expression matches a well-formed tag at the head of a text, with
    its four fields as captures. *)
Lemma matchHere_tag (t : Tag) (rest : jsstring) :
  wellFormed t = true ->
  matchHere PLACE_TAG_REGEX (tagText t ++ rest) = Some (fields t, rest).
Proof.
  unfold wellFormed, avoids. intros H.
  apply andb_prop in H as [H Ha]. apply andb_prop in H as [H Hlng].
  apply andb_prop in H as [Hn Hlat].
  unfold PLACE_TAG_REGEX, tagText, fields.
  repeat rewrite <- app_assoc.
  rewrite matchHere_lit.
  apply (matchHere_group "|" [] _ _ _ _ _ Hn). rewrite matchHere_lit.
  apply (matchHere_group "|" [] _ _ _ _ _ Hlat). rewrite matchHere_lit.
  apply (matchHere_group "|" [] _ _ _ _ _ Hlng). rewrite matchHere_lit.
  apply (matchHere_group "}" (lit "}") _ _ _ _ _ Ha). rewrite matchHere_lit.
  reflexivity.
Qed.

(** Conversely, whatever the expression matches is a well-formed tag. *)
Lemma matchHere_inv (s : jsstring) (caps : list jsstring) (rest : jsstring) :
  matchHere PLACE_TAG_REGEX s = Some (caps, rest) ->
  exists t, wellFormed t = true /\ caps = fields t /\ s = tagText t ++ rest.
Proof.
  unfold PLACE_TAG_REGEX. intros H.
  apply matchHere_lit_inv in H as (s0 & -> & H).
  apply matchHere_group_inv in H as (g1 & s1 & c1 & -> & -> & H1 & H).
  apply matchHere_lit_inv in H as (s1' & -> & H).
  apply matchHere_group_inv in H as (g2 & s2 & c2 & -> & -> & H2 & H).
  apply matchHere_lit_inv in H as (s2' & -> & H).
  apply matchHere_group_inv in H as (g3 & s3 & c3 & -> & -> & H3 & H).
  apply matchHere_lit_inv in H as (s3' & -> & H).
  apply matchHere_group_inv in H as (g4 & s4 & c4 & -> & -> & H4 & H).
  apply matchHere_lit_inv in H as (s4' & -> & H).
  simpl in H. inversion H; subst.
  exists {| tagName := g1; tagLat := g2; tagLng := g3; tagAddress := g4 |}.
  unfold wellFormed, avoids, tagText, fields. simpl tagName. simpl tagLat.
  simpl tagLng. simpl tagAddress.
  rewrite H1, H2, H3, H4. repeat rewrite <- app_assoc. repeat split; auto.
Qed.

Lemma tagText_length (t : Tag) : 12 <= List.length (tagText t).
Proof.
  unfold tagText. repeat rewrite length_app. simpl. lia.
Qed.

(** A text that does not start with an opening brace starts no match. *)
Lemma matchHere_needs_brace (c : N) (s : jsstring) :
  notChar "{" c = true -> matchHere PLACE_TAG_REGEX (c :: s) = None.
Proof. apply literal_blocks. Qed.

Lemma matchHere_nil : matchHere PLACE_TAG_REGEX [] = None.
Proof. reflexivity. Qed.

End RegexFacts.

(* ================================================================== *)
(** * The two loops of [parseResponse] *)
(* ================================================================== *)

Section LoopFacts.

Variable randomId : nat -> jsstring.

Lemma placeOfMatch_groups (d : nat) (m : Match) (t : Tag) :
  groups m = fields t -> placeOfMatch randomId d m = placeOfTag randomId d t.
Proof.
  intros H. unfold placeOfTag, placeOfMatch, field. rewrite H. reflexivity.
Qed.

Lemma skipn_length_app (a b : jsstring) : skipn (List.length a) (a ++ b) = b.
Proof. induction a; simpl; auto. Qed.

Lemma firstn_length_app (a b : jsstring) : firstn (List.length a) (a ++ b) = a.
Proof. induction a; simpl; f_equal; auto. Qed.

Lemma firstn_consumed (a b : jsstring) :
  firstn (List.length (a ++ b) - List.length b) (a ++ b) = a.
Proof.
  rewrite length_app, Nat.add_sub, firstn_app, Nat.sub_diag, firstn_all.
  apply app_nil_r.
Qed.

Lemma search_here (p : Pattern) (s : jsstring) (idx : nat) caps rest :
  matchHere p s = Some (caps, rest) ->
  search p s idx
  = Some {| index := idx;
            fullTag := firstn (List.length s - List.length rest) s;
            groups := caps |}.
Proof. intros H. destruct s; cbn [search]; rewrite H; reflexivity. Qed.

(** What [search] finds is a well-formed tag, after a stretch [g] of the
    text. *)
Lemma search_inv :
  forall s idx m,
    search PLACE_TAG_REGEX s idx = Some m ->
    exists g t rest,
      s = g ++ tagText t ++ rest /\ wellFormed t = true
      /\ m = tagMatch (idx + List.length g) t.
Proof.
  induction s as [|c s IH]; intros idx m H.
  - simpl in H. discriminate.
  - cbn [search] in H.
    destruct (matchHere PLACE_TAG_REGEX (c :: s)) as [[caps rest]|] eqn:M.
    + apply matchHere_inv in M as (t & Hwf & -> & E).
      rewrite E, firstn_consumed in H. inversion H; subst m.
      exists [], t, rest. simpl. rewrite Nat.add_0_r.
      repeat split; auto.
    + destruct (IH _ _ H) as (g & t & rest & -> & Hwf & ->).
      exists (c :: g), t, rest. simpl.
      rewrite Nat.add_succ_r. auto.
Qed.

(** [search] finds a well-formed tag that comes after a brace-free stretch. *)
Lemma search_tag (g : jsstring) (t : Tag) (rest : jsstring) (idx : nat) :
  avoids "{" g = true -> wellFormed t = true ->
  search PLACE_TAG_REGEX (g ++ tagText t ++ rest) idx
  = Some (tagMatch (idx + List.length g) t).
Proof.
  revert idx. induction g as [|c g IH]; intros idx Hg Hwf.
  - rewrite app_nil_l, Nat.add_0_r.
    rewrite (search_here _ _ _ _ _ (matchHere_tag t rest Hwf)).
    rewrite firstn_consumed. reflexivity.
  - simpl in Hg. apply andb_prop in Hg as [Hc Hg].
    rewrite <- app_comm_cons. cbn [search].
    rewrite (matchHere_needs_brace c _ Hc).
    rewrite (IH (S idx) Hg Hwf). cbn [List.length].
    rewrite Nat.add_succ_r. reflexivity.
Qed.

(** [search] finds nothing in a brace-free text. *)
Lemma search_brace_free (s : jsstring) (idx : nat) :
  avoids "{" s = true -> search PLACE_TAG_REGEX s idx = None.
Proof.
  revert idx. induction s as [|c s IH]; intros idx H.
  - reflexivity.
  - simpl in H. apply andb_prop in H as [Hc Hs].
    cbn [search]. rewrite (matchHere_needs_brace c s Hc). auto.
Qed.

Lemma exec_at (pre s : jsstring) :
  exec PLACE_TAG_REGEX (pre ++ s) (List.length pre)
  = match search PLACE_TAG_REGEX s (List.length pre) with
    | Some m => (Some m, index m + List.length (fullTag m))
    | None => (None, 0)
    end.
Proof.
  unfold exec.
  replace (Nat.ltb (List.length (pre ++ s)) (List.length pre)) with false.
  - rewrite skipn_length_app. reflexivity.
  - symmetry. apply Nat.ltb_ge. rewrite length_app. lia.
Qed.

(** One turn of both loops on a text whose next match is the tag [t]. *)
Lemma execLoop_turn (fuel : nat) (pre g : jsstring) (t : Tag)
  (rest : jsstring) (d : nat) (acc : list Place) :
  search PLACE_TAG_REGEX (g ++ tagText t ++ rest) (List.length pre)
  = Some (tagMatch (List.length pre + List.length g) t) ->
  execLoop randomId (S fuel) (pre ++ g ++ tagText t ++ rest)
    (List.length pre) d acc
  = match placeOfTag randomId d t with
    | Some pl =>
        execLoop randomId fuel ((pre ++ g ++ tagText t) ++ rest)
          (List.length (pre ++ g ++ tagText t)) (S d) (acc ++ [pl])
    | None =>
        execLoop randomId fuel ((pre ++ g ++ tagText t) ++ rest)
          (List.length (pre ++ g ++ tagText t)) d acc
    end.
Proof.
  intros H. cbn [execLoop]. rewrite exec_at, H.
  rewrite (placeOfMatch_groups d (tagMatch _ t) t eq_refl).
  cbn [index fullTag tagMatch].
  repeat rewrite length_app. repeat rewrite <- app_assoc.
  rewrite Nat.add_assoc. reflexivity.
Qed.

Lemma replaceLoop_turn (fuel : nat) (pre g : jsstring) (t : Tag)
  (rest acc : jsstring) :
  search PLACE_TAG_REGEX (g ++ tagText t ++ rest) (List.length pre)
  = Some (tagMatch (List.length pre + List.length g) t) ->
  replaceLoop (S fuel) PLACE_TAG_REGEX (pre ++ g ++ tagText t ++ rest)
    (List.length pre) acc
  = replaceLoop fuel PLACE_TAG_REGEX ((pre ++ g ++ tagText t) ++ rest)
      (List.length (pre ++ g ++ tagText t)) (acc ++ g).
Proof.
  intros H. cbn [replaceLoop]. rewrite exec_at, H.
  cbn [index fullTag tagMatch].
  rewrite skipn_length_app.
  replace (List.length pre + List.length g - List.length pre)
    with (List.length g) by lia.
  rewrite firstn_length_app.
  repeat rewrite length_app. repeat rewrite <- app_assoc.
  rewrite Nat.add_assoc. reflexivity.
Qed.

Lemma execLoop_end (fuel : nat) (pre s : jsstring) (d : nat)
  (acc : list Place) :
  search PLACE_TAG_REGEX s (List.length pre) = None ->
  execLoop randomId (S fuel) (pre ++ s) (List.length pre) d acc = Some acc.
Proof. intros H. cbn [execLoop]. rewrite exec_at, H. reflexivity. Qed.

Lemma replaceLoop_end (fuel : nat) (pre s acc : jsstring) :
  search PLACE_TAG_REGEX s (List.length pre) = None ->
  replaceLoop (S fuel) PLACE_TAG_REGEX (pre ++ s) (List.length pre) acc
  = Some (acc ++ s).
Proof.
  intros H. cbn [replaceLoop]. rewrite exec_at, H.
  rewrite skipn_length_app. reflexivity.
Qed.

Lemma search_index (p : Pattern) :
  forall s idx,
    search p s idx
    = option_map (fun m => {| index := idx + index m;
                              fullTag := fullTag m;
                              groups := groups m |}) (search p s 0).
Proof.
  induction s as [|c s IH]; intros idx; cbn [search].
  - destruct (matchHere p []) as [[caps rest]|]; simpl;
      [rewrite Nat.add_0_r|]; reflexivity.
  - destruct (matchHere p (c :: s)) as [[caps rest]|]; simpl.
    + rewrite Nat.add_0_r. reflexivity.
    + rewrite (IH (S idx)), (IH 1).
      destruct (search p s 0) as [m|]; simpl; [|reflexivity].
      rewrite Nat.add_succ_r. reflexivity.
Qed.

Lemma tagOfGroups_fields (t : Tag) : tagOfGroups (fields t) = t.
Proof. destruct t; reflexivity. Qed.

(** One turn of [cut]. *)
Lemma cut_turn (fuel : nat) (g : jsstring) (t : Tag) (rest : jsstring) :
  search PLACE_TAG_REGEX (g ++ tagText t ++ rest) 0
  = Some (tagMatch (List.length g) t) ->
  cut (S fuel) (g ++ tagText t ++ rest)
  = ((g, t) :: fst (cut fuel rest), snd (cut fuel rest)).
Proof.
  intros H. cbn [cut]. rewrite H. cbn [index fullTag groups tagMatch].
  rewrite firstn_length_app, tagOfGroups_fields.
  rewrite <- length_app, app_assoc, skipn_length_app.
  destruct (cut fuel rest); reflexivity.
Qed.

(** Every text is cut by the loops into well-formed tags and the text
    between them; with enough fuel the first loop returns the places of the
    tags and the second what lies between the tags. *)
Lemma loops_cut :
  forall fuel pre s d accP accT,
    List.length s < fuel ->
    s = weave (fst (cut fuel s)) (snd (cut fuel s))
    /\ Forall (fun gt => wellFormed (snd gt) = true) (fst (cut fuel s))
    /\ execLoop randomId fuel (pre ++ s) (List.length pre) d accP
       = Some (accP ++ placesFrom randomId d (List.map snd (fst (cut fuel s))))
    /\ replaceLoop fuel PLACE_TAG_REGEX (pre ++ s) (List.length pre) accT
       = Some (accT ++ strip (fst (cut fuel s)) (snd (cut fuel s))).
Proof.
  induction fuel as [|fuel IH]; intros pre s d accP accT Hf; [lia|].
  destruct (search PLACE_TAG_REGEX s 0) as [m|] eqn:Hs.
  - destruct (search_inv _ _ _ Hs) as (g & t & rest & -> & Hwf & ->).
    cbn [Nat.add] in Hs.
    assert (Hs' : search PLACE_TAG_REGEX (g ++ tagText t ++ rest)
                    (List.length pre)
                  = Some (tagMatch (List.length pre + List.length g) t)).
    { rewrite search_index, Hs. reflexivity. }
    pose proof (tagText_length t) as Ht.
    assert (Hr : List.length rest < fuel).
    { repeat rewrite length_app in Hf. lia. }
    rewrite (execLoop_turn fuel pre g t rest d accP Hs').
    rewrite (replaceLoop_turn fuel pre g t rest accT Hs').
    rewrite (cut_turn fuel g t rest Hs).
    cbn [fst snd weave List.map placesFrom strip].
    destruct (placeOfTag randomId d t) as [pl|] eqn:P.
    + destruct (IH (pre ++ g ++ tagText t) rest (S d) (accP ++ [pl])
                  (accT ++ g) Hr) as (E & Hl & He & Hc).
      rewrite He, Hc, <- E.
      repeat rewrite <- app_assoc. repeat split; auto.
    + destruct (IH (pre ++ g ++ tagText t) rest d accP
                  (accT ++ g) Hr) as (E & Hl & He & Hc).
      rewrite He, Hc, <- E.
      repeat rewrite <- app_assoc. repeat split; auto.
  - assert (Hs' : search PLACE_TAG_REGEX s (List.length pre) = None).
    { rewrite search_index, Hs. reflexivity. }
    cbn [cut]. rewrite Hs. cbn [fst snd weave strip List.map placesFrom].
    rewrite (execLoop_end fuel pre s d accP Hs').
    rewrite (replaceLoop_end fuel pre s accT Hs').
    rewrite app_nil_r. repeat split; auto.
Qed.

(** On well-formed tags set in brace-free text the loops find exactly the
    tags. *)
Lemma loops_weave :
  forall l tail,
    Forall (fun gt => avoids "{" (fst gt) = true
                      /\ wellFormed (snd gt) = true) l ->
    avoids "{" tail = true ->
    forall fuel pre d accP accT,
      List.length (weave l tail) < fuel ->
      execLoop randomId fuel (pre ++ weave l tail) (List.length pre) d accP
      = Some (accP ++ placesFrom randomId d (List.map snd l))
      /\ replaceLoop fuel PLACE_TAG_REGEX (pre ++ weave l tail)
           (List.length pre) accT
         = Some (accT ++ strip l tail).
Proof.
  induction l as [|[g t] l IH]; intros tail Hl Htail fuel pre d accP accT Hf;
    (destruct fuel as [|fuel]; [lia|]).
  - cbn [weave strip List.map placesFrom].
    rewrite (execLoop_end fuel pre tail d accP
               (search_brace_free tail _ Htail)).
    rewrite (replaceLoop_end fuel pre tail accT
               (search_brace_free tail _ Htail)).
    rewrite app_nil_r. auto.
  - inversion Hl as [|? ? [Hg Hwf] Hl']; subst. cbn [fst snd] in Hg, Hwf.
    pose proof (search_tag g t (weave l tail) (List.length pre) Hg Hwf) as Hs.
    pose proof (tagText_length t) as Ht.
    assert (Hr : List.length (weave l tail) < fuel).
    { cbn [weave] in Hf. repeat rewrite length_app in Hf. lia. }
    cbn [weave].
    rewrite (execLoop_turn fuel pre g t _ d accP Hs).
    rewrite (replaceLoop_turn fuel pre g t _ accT Hs).
    cbn [List.map snd placesFrom strip].
    destruct (placeOfTag randomId d t) as [pl|] eqn:P.
    + destruct (IH tail Hl' Htail fuel (pre ++ g ++ tagText t) (S d)
                  (accP ++ [pl]) (accT ++ g) Hr) as [He Hc].
      rewrite He, Hc. repeat rewrite <- app_assoc. auto.
    + destruct (IH tail Hl' Htail fuel (pre ++ g ++ tagText t) d
                  accP (accT ++ g) Hr) as [He Hc].
      rewrite He, Hc. repeat rewrite <- app_assoc. auto.
Qed.

(** A text woven from well-formed tags and brace-free text is cut into these
    tags. *)
Lemma cut_weave :
  forall l tail,
    Forall (fun gt => avoids "{" (fst gt) = true
                      /\ wellFormed (snd gt) = true) l ->
    avoids "{" tail = true ->
    forall fuel,
      List.length (weave l tail) < fuel ->
      cut fuel (weave l tail) = (l, tail).
Proof.
  induction l as [|[g t] l IH]; intros tail Hl Htail fuel Hf;
    (destruct fuel as [|fuel]; [lia|]).
  - cbn [weave cut]. rewrite (search_brace_free tail 0 Htail). reflexivity.
  - inversion Hl as [|? ? [Hg Hwf] Hl']; subst. cbn [fst snd] in Hg, Hwf.
    pose proof (search_tag g t (weave l tail) 0 Hg Hwf) as Hs.
    pose proof (tagText_length t) as Ht.
    cbn [weave] in *. rewrite (cut_turn fuel g t _ Hs).
    rewrite (IH tail Hl' Htail fuel); [reflexivity|].
    repeat rewrite length_app in Hf. lia.
Qed.

Lemma matchedTags_weave (l : list (jsstring * Tag)) (tail : jsstring) :
  Forall (fun gt => avoids "{" (fst gt) = true
                    /\ wellFormed (snd gt) = true) l ->
  avoids "{" tail = true ->
  matchedTags (weave l tail) = List.map snd l.
Proof.
  intros Hl Ht. unfold matchedTags, cutText.
  rewrite (cut_weave l tail Hl Ht); [reflexivity|]. apply Nat.lt_succ_diag_r.
Qed.

(** [parseResponse] returns on every text: the display text is the text
    without the tags the expression matches, and the places are those of the
    matched tags. *)
Lemma parseResponse_cut (text : jsstring) :
  text = weave (fst (cutText text)) (snd (cutText text))
  /\ Forall (fun gt => wellFormed (snd gt) = true) (fst (cutText text))
  /\ parseResponse randomId text
     = Some {| cleanText := strip (fst (cutText text)) (snd (cutText text));
               places := placesFrom randomId 0 (matchedTags text) |}.
Proof.
  destruct (loops_cut (S (List.length text)) [] text 0 [] []
              (Nat.lt_succ_diag_r _)) as (E & Hl & He & Hc).
  repeat split; auto.
  unfold parseResponse. simpl app in He, Hc. simpl List.length in He, Hc.
  rewrite He, Hc. reflexivity.
Qed.

Lemma parseResponse_total (text : jsstring) :
  exists r, parseResponse randomId text = Some r.
Proof.
  destruct (parseResponse_cut text) as (_ & _ & H). eauto.
Qed.

Lemma parseResponse_weave (l : list (jsstring * Tag)) (tail : jsstring) :
  Forall (fun gt => avoids "{" (fst gt) = true
                    /\ wellFormed (snd gt) = true) l ->
  avoids "{" tail = true ->
  parseResponse randomId (weave l tail)
  = Some {| cleanText := strip l tail;
            places := placesFrom randomId 0 (List.map snd l) |}.
Proof.
  intros Hl Ht.
  destruct (loops_weave l tail Hl Ht (S (List.length (weave l tail))) [] 0
              [] [] (Nat.lt_succ_diag_r _)) as [He Hc].
  unfold parseResponse. simpl app in He, Hc. simpl List.length in He, Hc.
  rewrite He, Hc. reflexivity.
Qed.

End LoopFacts.

(* ================================================================== *)
(** * Which tags become places *)
(* ================================================================== *)

Section PlaceFacts.

Variable randomId : nat -> jsstring.

Lemma isNaN_abs (x : number) : isNaN (abs x) = isNaN x.
Proof. destruct x; reflexivity. Qed.

Lemma gt_abs_epsilon (x : number) :
  isNaN x = false -> gt (abs x) originEpsilon = negb (nearZero x).
Proof.
  intros H. unfold nearZero. apply gt_not_le; [|reflexivity].
  rewrite isNaN_abs. exact H.
Qed.

(** The test of the loop is the negation of the rule of the specification. *)
Lemma placeOfTag_dropped (d : nat) (t : Tag) :
  placeOfTag randomId d t
  = if dropped t then None else Some (placeAt randomId d t).
Proof.
  unfold placeOfTag, placeOfMatch, dropped, placeAt, tagCoordinates,
    isValidCoordinate, field.
  cbn [groups tagMatch fields nth].
  fold (tagLatitude t). fold (tagLongitude t).
  destruct (isNaN (tagLatitude t)) eqn:N1; [reflexivity|].
  destruct (isFinite (tagLatitude t)) eqn:F1; [|reflexivity].
  destruct (isNaN (tagLongitude t)) eqn:N2; [reflexivity|].
  destruct (isFinite (tagLongitude t)) eqn:F2; [|reflexivity].
  rewrite (gt_abs_epsilon _ N1), (gt_abs_epsilon _ N2).
  cbn [negb andb orb].
  destruct (nearZero (tagLatitude t)), (nearZero (tagLongitude t));
    reflexivity.
Qed.

Lemma placesFrom_kept (ts : list Tag) :
  forall d,
    List.map coordinates (placesFrom randomId d ts)
    = List.map tagCoordinates (filter kept ts)
    /\ List.map name (placesFrom randomId d ts)
       = List.map (fun t => trim (tagName t)) (filter kept ts).
Proof.
  unfold kept.
  induction ts as [|t ts IH]; intros d; [split; reflexivity|].
  cbn [placesFrom filter]. rewrite placeOfTag_dropped.
  destruct (dropped t); cbn [negb].
  - apply IH.
  - destruct (IH (S d)) as [Hc Hn]. cbn [List.map]. rewrite Hc, Hn.
    split; reflexivity.
Qed.

Lemma placesFrom_In (ts : list Tag) (t : Tag) :
  In t ts -> dropped t = false ->
  forall d, exists d', In (placeAt randomId d' t) (placesFrom randomId d ts).
Proof.
  induction ts as [|t0 ts IH]; intros Hin Hk d; [destruct Hin|].
  cbn [placesFrom]. rewrite placeOfTag_dropped.
  destruct Hin as [->|Hin].
  - rewrite Hk. exists d. left. reflexivity.
  - destruct (dropped t0).
    + apply IH; assumption.
    + destruct (IH Hin Hk (S d)) as [d' H]. exists d'. right. exact H.
Qed.

End PlaceFacts.

(* ================================================================== *)
(** * Statements about the extraction protocol *)
(* ================================================================== *)

(** C5.  The protocol produces a place for exactly the matched tags that the
    rule of the specification does not drop: a tag is dropped when one of its
    numeric fields does not parse or is not finite, or when both are within
    0.0001 of zero.  The places of a text are, in order, the coordinates of
    its kept tags.  In particular the Ghost tag at (0, 0) yields no place and
    the Real tag at (0.0002, 0.0002) yields exactly one. *)
Theorem C5_dropped_tags (randomId : nat -> jsstring) :
  (forall text : jsstring,
     exists r,
       parseResponse randomId text = Some r
       /\ List.map coordinates (places r)
          = List.map tagCoordinates
              (filter (fun t => negb (dropped t)) (matchedTags text)))
  /\ (forall (d : nat) (t : Tag),
        placeOfTag randomId d t = None <-> dropped t = true)
  /\ option_map places (parseResponse randomId ghostText) = Some []
  /\ option_map (fun r => List.map coordinates (places r))
       (parseResponse randomId realText)
     = Some [ {| lat := Prim2SF 0.0002%float; lng := Prim2SF 0.0002%float;
                 accuracy := None |} ].
Proof.
  split; [|split; [|split]].
  - intros text.
    destruct (parseResponse_cut randomId text) as (_ & _ & H).
    eexists. split; [exact H|]. cbn [places].
    apply (placesFrom_kept randomId).
  - intros d t. rewrite placeOfTag_dropped.
    destruct (dropped t); split; congruence.
  - vm_compute. reflexivity.
  - vm_compute. reflexivity.
Qed.

(** The witness of C5: the loop pushes nothing for the Ghost tag, so the rule
    drops it. *)
Lemma C5_dropped_tags_witness :
  dropped {| tagName := lit "Ghost"; tagLat := lit "0"; tagLng := lit "0";
             tagAddress := lit "Nowhere" |} = true.
Proof.
  apply (proj1 (proj1 (proj2 (C5_dropped_tags sampleId)) 0
                  {| tagName := lit "Ghost"; tagLat := lit "0";
                     tagLng := lit "0"; tagAddress := lit "Nowhere" |})).
  reflexivity.
Defined.

(** C8.  The places keep the order of the tags in the text: the text is its
    matched tags woven, from left to right, with the text between them, and
    the names of the places are the trimmed names of the kept tags in that
    order.  Two kept tags [a] and [b], in this order in a text, give the
    places of [a] and of [b] in this order; the text
    "...{{DATA:A|1|1|x}}...{{DATA:B|2|2|y}}..." gives [A, B]. *)
Theorem C8_order_preserved (randomId : nat -> jsstring) :
  (forall text : jsstring,
     exists r,
       parseResponse randomId text = Some r
       /\ text = weave (fst (cutText text)) (snd (cutText text))
       /\ List.map name (places r)
          = List.map (fun t => trim (tagName t))
              (filter (fun t => negb (dropped t)) (matchedTags text)))
  /\ (forall (g0 g1 g2 : jsstring) (a b : Tag),
        avoids "{" g0 = true -> avoids "{" g1 = true ->
        avoids "{" g2 = true ->
        wellFormed a = true -> wellFormed b = true ->
        dropped a = false -> dropped b = false ->
        option_map places
          (parseResponse randomId
             (g0 ++ tagText a ++ g1 ++ tagText b ++ g2))
        = Some [placeAt randomId 0 a; placeAt randomId 1 b])
  /\ names (parseResponse randomId orderText) = Some [lit "A"; lit "B"].
Proof.
  split; [|split].
  - intros text.
    destruct (parseResponse_cut randomId text) as (E & _ & H).
    eexists. split; [exact H|]. split; [exact E|]. cbn [places].
    apply (placesFrom_kept randomId).
  - intros g0 g1 g2 a b H0 H1 H2 Ha Hb Da Db.
    change (g0 ++ tagText a ++ g1 ++ tagText b ++ g2)
      with (weave [(g0, a); (g1, b)] g2).
    rewrite parseResponse_weave; [|repeat constructor; assumption|exact H2].
    cbn [option_map places List.map snd placesFrom].
    rewrite !placeOfTag_dropped, Da, Db. reflexivity.
  - vm_compute. reflexivity.
Qed.

(** The witness of C8: two kept tags between dots. *)
Lemma C8_order_preserved_witness :
  option_map places
    (parseResponse sampleId
       (lit "..." ++ tagText {| tagName := lit "A"; tagLat := lit "1";
                                tagLng := lit "1"; tagAddress := lit "x" |}
        ++ lit "..." ++ tagText {| tagName := lit "B"; tagLat := lit "2";
                                   tagLng := lit "2"; tagAddress := lit "y" |}
        ++ lit "..."))
  = Some [placeAt sampleId 0
            {| tagName := lit "A"; tagLat := lit "1";
               tagLng := lit "1"; tagAddress := lit "x" |};
          placeAt sampleId 1
            {| tagName := lit "B"; tagLat := lit "2";
               tagLng := lit "2"; tagAddress := lit "y" |}].
Proof.
  apply (proj1 (proj2 (C8_order_preserved sampleId))); reflexivity.
Defined.

(** C4, as stated, fails in two ways.  The text
    "{{DA{{DATA:a|1|2|b}}TA:x|1|1|y}}" holds one tag, which is well formed,
    between two pieces of text that hold no tag; once the tag is removed the
    two pieces form a tag, which the display text shows.  In the text
    "{{DATA:a|b|c|{{DATA:x}}y|1|2|z}}" the span that starts at offset 13
    matches the pattern up to the end of the text, but it overlaps the match
    the scan finds at offset 0, and its end stays in the display text. *)
Lemma C4_counterexample :
  (nestedText
   = weave [(lit "{{DA", {| tagName := lit "a"; tagLat := lit "1";
                            tagLng := lit "2"; tagAddress := lit "b" |})]
       (lit "TA:x|1|1|y}}")
   /\ hasTag (lit "{{DA") = false
   /\ hasTag (lit "TA:x|1|1|y}}") = false
   /\ shown (parseResponse sampleId nestedText)
      = Some (lit "{{DATA:x|1|1|y}}")
   /\ hasTag (lit "{{DATA:x|1|1|y}}") = true)
  /\ (option_map snd (matchHere PLACE_TAG_REGEX (skipn 13 overlapText))
      = Some []
      /\ shown (parseResponse sampleId overlapText) = Some (lit "y|1|2|z}}")).
Proof. vm_compute. repeat split. Qed.

(** C4, amended.  For every text, the display text is the text without the
    tags that the left-to-right scan matches, whether they were accepted or
    dropped: all matched tags are removed, and the places are those of the
    kept ones.  For a text made of well-formed tags and of text without opening
    brace between them, the display text is that text between the tags and
    holds no occurrence of the pattern. *)
Theorem C4_tags_stripped (randomId : nat -> jsstring) :
  (forall text : jsstring,
     exists r,
       parseResponse randomId text = Some r
       /\ text = weave (fst (cutText text)) (snd (cutText text))
       /\ Forall (fun gt => wellFormed (snd gt) = true) (fst (cutText text))
       /\ cleanText r = strip (fst (cutText text)) (snd (cutText text))
       /\ places r = placesFrom randomId 0 (matchedTags text))
  /\ (forall (l : list (jsstring * Tag)) (tail : jsstring),
        Forall (fun gt => avoids "{" (fst gt) = true
                          /\ wellFormed (snd gt) = true) l ->
        avoids "{" tail = true ->
        exists r,
          parseResponse randomId (weave l tail) = Some r
          /\ cleanText r = strip l tail
          /\ hasTag (cleanText r) = false).
Proof.
  split.
  - intros text.
    destruct (parseResponse_cut randomId text) as (E & W & H).
    eexists. split; [exact H|]. repeat split; try assumption.
  - intros l tail Hl Ht. eexists.
    split; [apply parseResponse_weave; assumption|].
    split; [reflexivity|]. cbn [cleanText]. unfold hasTag.
    rewrite search_brace_free; [reflexivity|].
    clear - Hl Ht. induction l as [|[g t] l IH]; [exact Ht|].
    inversion Hl as [|? ? [Hg _] Hl']; subst. cbn [strip fst] in *.
    rewrite avoids_app, Hg. apply IH. exact Hl'.
Qed.

(** The witness of C4: an accepted and a dropped tag in plain text. *)
Lemma C4_tags_stripped_witness :
  exists r,
    parseResponse sampleId
      (weave [(lit "Try ", {| tagName := lit "Cafe"; tagLat := lit "40.7";
                              tagLng := lit "-74"; tagAddress := lit "NY" |});
              (lit " or ", {| tagName := lit "Ghost"; tagLat := lit "0";
                              tagLng := lit "0"; tagAddress := lit "" |})]
         (lit "."))
    = Some r
    /\ cleanText r
       = strip [(lit "Try ", {| tagName := lit "Cafe"; tagLat := lit "40.7";
                                tagLng := lit "-74"; tagAddress := lit "NY" |});
                (lit " or ", {| tagName := lit "Ghost"; tagLat := lit "0";
                                tagLng := lit "0"; tagAddress := lit "" |})]
           (lit ".")
    /\ hasTag (cleanText r) = false.
Proof.
  apply (proj2 (C4_tags_stripped sampleId)).
  - repeat constructor.
  - reflexivity.
Defined.

Section FieldFacts.

Variable randomId : nat -> jsstring.

(** The place of a tag depends on its fields through [trim], and on the two
    numeric fields through the replacement of the comma as well. *)
Lemma placeOfTag_ext (d : nat) (t u : Tag) :
  trim (tagName t) = trim (tagName u) ->
  replaceFirst (ch ",") (ch ".") (trim (tagLat t))
  = replaceFirst (ch ",") (ch ".") (trim (tagLat u)) ->
  replaceFirst (ch ",") (ch ".") (trim (tagLng t))
  = replaceFirst (ch ",") (ch ".") (trim (tagLng u)) ->
  trim (tagAddress t) = trim (tagAddress u) ->
  placeOfTag randomId d t = placeOfTag randomId d u.
Proof.
  intros Hn Hla Hlo Ha.
  unfold placeOfTag, placeOfMatch, field.
  cbn [groups tagMatch fields nth]. rewrite Hn, Hla, Hlo, Ha. reflexivity.
Qed.

Lemma avoids_padded (x : ascii) (w1 s w2 : jsstring) :
  isWhiteSpace (ch x) = false ->
  allWhite w1 = true -> allWhite w2 = true -> avoids x s = true ->
  avoids x (w1 ++ s ++ w2) = true.
Proof.
  intros Hx H1 H2 Hs.
  rewrite !avoids_app, Hs, (avoids_white x w1 Hx H1),
    (avoids_white x w2 Hx H2).
  reflexivity.
Qed.

Lemma avoids_point (x : ascii) (i f : jsstring) :
  notChar x (ch ".") = true ->
  avoids x (i ++ ch "," :: f) = true -> avoids x (i ++ ch "." :: f) = true.
Proof.
  intros Hx. rewrite !avoids_app. unfold avoids. cbn [forallb].
  intros H. apply andb_prop in H as [Hi H]. apply andb_prop in H as [_ Hf].
  rewrite Hi, Hx, Hf. reflexivity.
Qed.

End FieldFacts.

(** C9.  Every captured field is trimmed, and in the two numeric fields a
    decimal comma is turned into a decimal point before [parseFloat] reads
    them: the place of a tag carries the trimmed name and address and the
    numbers read in the trimmed, comma-free numeric fields; a tag whose
    fields are padded with white space and whose numbers use a decimal comma
    gives the same result as the tag without padding and with decimal
    points.  In particular "{{DATA:C|40,71|-74,00|NY}}" gives latitude 40.71
    and longitude -74. *)
Theorem C9_trim_and_decimal_comma (randomId : nat -> jsstring) :
  (forall (d : nat) (t : Tag) (pl : Place),
     placeOfTag randomId d t = Some pl ->
     name pl = trim (tagName t)
     /\ address pl = Some (trim (tagAddress t))
     /\ lat (coordinates pl)
        = parseFloat (replaceFirst (ch ",") (ch ".") (trim (tagLat t)))
     /\ lng (coordinates pl)
        = parseFloat (replaceFirst (ch ",") (ch ".") (trim (tagLng t))))
  /\ (forall (g0 tail n ad i1 f1 i2 f2 w1 w2 w3 w4 w5 w6 w7 w8 : jsstring),
        avoids "{" g0 = true -> avoids "{" tail = true ->
        allWhite w1 = true -> allWhite w2 = true ->
        allWhite w3 = true -> allWhite w4 = true ->
        allWhite w5 = true -> allWhite w6 = true ->
        allWhite w7 = true -> allWhite w8 = true ->
        wellFormed {| tagName := n; tagLat := i1 ++ ch "," :: f1;
                      tagLng := i2 ++ ch "," :: f2; tagAddress := ad |}
        = true ->
        avoids "," i1 = true -> avoids "," f1 = true ->
        avoids "," i2 = true -> avoids "," f2 = true ->
        parseResponse randomId
          (g0 ++ tagText {| tagName := w1 ++ n ++ w2;
                            tagLat := w3 ++ (i1 ++ ch "," :: f1) ++ w4;
                            tagLng := w5 ++ (i2 ++ ch "," :: f2) ++ w6;
                            tagAddress := w7 ++ ad ++ w8 |} ++ tail)
        = parseResponse randomId
            (g0 ++ tagText {| tagName := n; tagLat := i1 ++ ch "." :: f1;
                              tagLng := i2 ++ ch "." :: f2;
                              tagAddress := ad |} ++ tail))
  /\ option_map (fun r => List.map coordinates (places r))
       (parseResponse randomId localeText)
     = Some [ {| lat := Prim2SF 40.71%float; lng := Prim2SF (-74)%float;
                 accuracy := None |} ].
Proof.
  split; [|split].
  - intros d t pl H. rewrite placeOfTag_dropped in H.
    destruct (dropped t); [discriminate|]. inversion H; subst pl.
    repeat split; reflexivity.
  - intros g0 tail n ad i1 f1 i2 f2 w1 w2 w3 w4 w5 w6 w7 w8
      H0 Ht W1 W2 W3 W4 W5 W6 W7 W8 Hwf C1 C2 C3 C4.
    unfold wellFormed in Hwf. cbn [tagName tagLat tagLng tagAddress] in Hwf.
    apply andb_prop in Hwf as [Hwf Ha]. apply andb_prop in Hwf as [Hwf Hlo].
    apply andb_prop in Hwf as [Hn Hla].
    match goal with
    | |- parseResponse _ (g0 ++ tagText ?t ++ tail)
         = parseResponse _ (g0 ++ tagText ?u ++ tail) =>
        change (parseResponse randomId (weave [(g0, t)] tail)
                = parseResponse randomId (weave [(g0, u)] tail));
        assert (Hp : forall d, placeOfTag randomId d t
                               = placeOfTag randomId d u)
    end.
    { intros d. apply placeOfTag_ext;
        cbn [tagName tagLat tagLng tagAddress].
      - apply trim_padded; assumption.
      - apply decimal_comma; assumption.
      - apply decimal_comma; assumption.
      - apply trim_padded; assumption. }
    rewrite !parseResponse_weave; try assumption.
    + cbn [List.map snd placesFrom strip]. rewrite Hp. reflexivity.
    + repeat constructor; [exact H0|].
      unfold wellFormed. cbn [snd tagName tagLat tagLng tagAddress].
      rewrite Hn, Ha, (avoids_point "|" i1 f1 eq_refl Hla),
        (avoids_point "|" i2 f2 eq_refl Hlo).
      reflexivity.
    + repeat constructor; [exact H0|].
      unfold wellFormed. cbn [snd tagName tagLat tagLng tagAddress].
      rewrite (avoids_padded "|" w1 n w2 eq_refl W1 W2 Hn),
        (avoids_padded "|" w3 _ w4 eq_refl W3 W4 Hla),
        (avoids_padded "|" w5 _ w6 eq_refl W5 W6 Hlo),
        (avoids_padded "}" w7 ad w8 eq_refl W7 W8 Ha).
      reflexivity.
  - vm_compute. reflexivity.
Qed.

(** The witness of C9: a padded tag with decimal commas. *)
Lemma C9_trim_and_decimal_comma_witness :
  parseResponse sampleId (lit "See {{DATA: C |40,71| -74,00 | NY }}.")
  = parseResponse sampleId (lit "See {{DATA:C|40.71|-74.00|NY}}.").
Proof.
  apply (proj1 (proj2 (C9_trim_and_decimal_comma sampleId))
           (lit "See ") (lit ".") (lit "C") (lit "NY")
           (lit "40") (lit "71") (lit "-74") (lit "00")
           (lit " ") (lit " ") [] [] (lit " ") [] (lit " ") (lit " "));
    reflexivity.
Defined.

(** C10, as stated, fails for small magnitudes: the two numeric fields of
    the Ghost tag parse to the finite number 0, and the protocol produces no
    place for it. *)
Lemma C10_counterexample :
  matchedTags ghostText
  = [ {| tagName := lit "Ghost"; tagLat := lit "0"; tagLng := lit "0";
         tagAddress := lit "Nowhere" |} ]
  /\ isFinite (parseFloat (lit "0")) = true
  /\ isValidCoord (parseFloat (lit "0")) (parseFloat (lit "0")) = true
  /\ option_map places (parseResponse sampleId ghostText) = Some [].
Proof. vm_compute. repeat split. Qed.

(** C10, amended.  Validation looks at finiteness only, never at the
    geographic range: [isValidCoord] holds of every pair of finite numbers,
    and every matched tag whose numeric fields parse to finite numbers that
    are not both within 0.0001 of zero yields a place with these numbers,
    however large they are. *)
Theorem C10_no_range_check (randomId : nat -> jsstring) :
  (forall la ln : number,
     isFinite la = true -> isFinite ln = true -> isValidCoord la ln = true)
  /\ (forall (text : jsstring) (t : Tag),
        In t (matchedTags text) ->
        isFinite (tagLatitude t) = true ->
        isFinite (tagLongitude t) = true ->
        nearZero (tagLatitude t) && nearZero (tagLongitude t) = false ->
        exists r pl,
          parseResponse randomId text = Some r
          /\ In pl (places r)
          /\ coordinates pl = tagCoordinates t
          /\ name pl = trim (tagName t)).
Proof.
  split.
  - intros la ln Ha Hn. destruct la, ln; try discriminate; reflexivity.
  - intros text t Hin Fa Fo Hz.
    destruct (parseResponse_cut randomId text) as (_ & _ & H).
    assert (D : dropped t = false).
    { unfold dropped. rewrite Fa, Fo, Hz.
      destruct (tagLatitude t), (tagLongitude t); try discriminate;
        reflexivity. }
    destruct (placesFrom_In randomId _ t Hin D 0) as [d' Hd].
    eexists. exists (placeAt randomId d' t).
    split; [exact H|]. repeat split. exact Hd.
Qed.

(** The witness of C10: latitude 1000 and longitude 999. *)
Lemma C10_no_range_check_witness :
  exists r pl,
    parseResponse sampleId bigText = Some r
    /\ In pl (places r)
    /\ coordinates pl
       = tagCoordinates {| tagName := lit "Big"; tagLat := lit "1000";
                           tagLng := lit "999"; tagAddress := lit "far" |}
    /\ name pl = trim (lit "Big").
Proof.
  apply (proj2 (C10_no_range_check sampleId) bigText
           {| tagName := lit "Big"; tagLat := lit "1000";
              tagLng := lit "999"; tagAddress := lit "far" |}).
  - vm_compute. left. reflexivity.
  - reflexivity.
  - reflexivity.
  - reflexivity.
Defined.

(* ================================================================== *)
(** * The viewport: which branch of the effect runs *)
(* ================================================================== *)

Section ViewportFacts.

Variable L : Leaflet.


Lemma followGuard_following (p : Props) (u : Coordinates) :
  isFollowingUser p = true -> userLocation p = Some u ->
  isValidCoord (lat u) (lng u) = true -> followGuard p = Some u.
Proof.
  intros F U V. unfold followGuard. rewrite F, U, V, orb_true_r. reflexivity.
Qed.

Lemma routeFitGuard_following (p : Props) :
  isFollowingUser p = true -> routeFitGuard p = None.
Proof.
  intros F. unfold routeFitGuard. rewrite F.
  destruct (routeData p) as [r|]; [|reflexivity].
  destruct (route_coordinates r); reflexivity.
Qed.

Lemma routeFitGuard_idle (p : Props) (r : RouteData) :
  routeFitGuard p = Some r -> isFollowingUser p = false.
Proof.
  intros H. destruct (isFollowingUser p) eqn:F; [|reflexivity].
  rewrite (routeFitGuard_following p F) in H. discriminate.
Qed.

Lemma mode_following (p : Props) :
  propsMode p = Following \/ propsMode p = Navigating <->
  isFollowingUser p = true.
Proof.
  unfold propsMode, modeOf.
  destruct (isFollowingUser p), (isNavigating p); split; intros H;
    try reflexivity; try discriminate; auto;
    destruct H; discriminate.
Qed.

Lemma followUser_calls (u : Coordinates) (rf : Refs) (m : Map L) (c : MapCall) :
  In c (calls (followUser L u rf m)) ->
  c = SetView (lat u, lng u) (getZoom L m) followOptions.
Proof.
  unfold followUser.
  destruct (gt (dist (getCenter L m) u) followThreshold); [|intros []].
  destruct (setView L _ _ _ m); cbn [calls]; [|intros []].
  intros [H|[]]. auto.
Qed.

Lemma applyCenter_calls (p : Props) (rf : Refs) (m : Map L) (c : MapCall) :
  In c (calls (applyCenter L p rf m)) ->
  c = SetView (lat (center p), lng (center p)) (targetZoom L p m)
        centerOptions
  /\ isValidCoord (lat (center p)) (lng (center p)) = true.
Proof.
  unfold applyCenter.
  destruct (isValidCoord (lat (center p)) (lng (center p)));
    cbn [negb]; [|intros []].
  destruct (centerChanged p rf || zoomChanged L p rf m); [|intros []].
  destruct (setView L _ _ _ m); cbn [calls]; [|intros []].
  intros [H|[]]. auto.
Qed.

Lemma fitRoute_calls (r : RouteData) (rf : Refs) (m : Map L) (run : Run L)
  (c : MapCall) :
  fitRoute L r rf m = Some run -> In c (calls run) ->
  c = FitBounds (route_coordinates r) routeFitOptions.
Proof.
  unfold fitRoute.
  destruct (latLngBounds L (route_coordinates r)) as [b|]; [|discriminate].
  destruct (isValid L b).
  - destruct (fitBounds L b routeFitOptions m); [|discriminate].
    intros H; inversion H; subst. cbn [calls]. intros [E|[]]. auto.
  - intros H; inversion H; subst. intros [].
Qed.

Lemma valid_parts (la ln : number) :
  isValidCoord la ln = true ->
  isNaN la = false /\ isFinite la = true
  /\ isNaN ln = false /\ isFinite ln = true.
Proof.
  unfold isValidCoord.
  destruct (isNaN la), (isNaN ln), (isFinite la), (isFinite ln);
    intros H; try discriminate; auto.
Qed.



(** With the follow flag up and a valid user location the effect is the
    follow branch. *)
Lemma MapUpdater_following (p : Props) (u : Coordinates) (rf : Refs)
  (m : Map L) :
  isFollowingUser p = true -> userLocation p = Some u ->
  isValidCoord (lat u) (lng u) = true ->
  MapUpdater L p rf m = Some (followUser L u rf m).
Proof.
  intros F U V. unfold MapUpdater.
  rewrite (routeFitGuard_following p F), (followGuard_following p u F U V).
  reflexivity.
Qed.


End ViewportFacts.

(* ================================================================== *)
(** * Statements about the viewport *)
(* ================================================================== *)

(** C1.  While the persistent mode is Following or Navigating, a route is
    not fitted: the effect returns what it returns without route data, which
    is the follow of the user when the user location is valid, and none of
    its calls is a [fitBounds].  A [fitBounds] on the route is sent only in
    mode Idle. *)
Theorem C1_follow_outranks_route (L : Leaflet) (p : Props) (rf : Refs)
  (m : Map L) :
  (propsMode p = Following \/ propsMode p = Navigating ->
   MapUpdater L p rf m = MapUpdater L (withRouteData None p) rf m
   /\ (forall u, userLocation p = Some u ->
                 isValidCoord (lat u) (lng u) = true ->
                 MapUpdater L p rf m = Some (followUser L u rf m))
   /\ (exists run, MapUpdater L p rf m = Some run
                   /\ forall c, In c (calls run) -> isFitCall c = false))
  /\ (forall run pts o,
        MapUpdater L p rf m = Some run ->
        In (FitBounds pts o) (calls run) -> propsMode p = Idle).
Proof.
  split.
  - intros Hm. apply mode_following in Hm.
    assert (E : MapUpdater L p rf m
                = match followGuard p with
                  | Some u => Some (followUser L u rf m)
                  | None => Some (applyCenter L p rf m)
                  end).
    { unfold MapUpdater. rewrite (routeFitGuard_following p Hm). reflexivity. }
    split; [|split].
    + rewrite E. unfold MapUpdater. reflexivity.
    + intros u U V. rewrite E, (followGuard_following p u Hm U V).
      reflexivity.
    + rewrite E. destruct (followGuard p) as [u|]; eexists;
        (split; [reflexivity|]); intros c Hin.
      * apply followUser_calls in Hin. subst c. reflexivity.
      * apply applyCenter_calls in Hin as [-> _]. reflexivity.
  - intros run pts o H Hin. unfold MapUpdater in H.
    destruct (routeFitGuard p) as [r|] eqn:R.
    + apply routeFitGuard_idle in R. unfold propsMode, modeOf.
      rewrite R. reflexivity.
    + destruct (followGuard p) as [u|]; inversion H; subst run.
      * apply followUser_calls in Hin. discriminate.
      * apply applyCenter_calls in Hin as [Hc _]. discriminate.
Qed.

(** The witness of C1: a route arrives while the camera follows the user. *)
Lemma C1_follow_outranks_route_witness :
  MapUpdater idealMap followingProps freshRefs worldView
  = MapUpdater idealMap (withRouteData None followingProps) freshRefs worldView
  /\ (forall u, userLocation followingProps = Some u ->
                isValidCoord (lat u) (lng u) = true ->
                MapUpdater idealMap followingProps freshRefs worldView
                = Some (followUser idealMap u freshRefs worldView))
  /\ (exists run,
        MapUpdater idealMap followingProps freshRefs worldView = Some run
        /\ forall c, In c (calls run) -> isFitCall c = false).
Proof.
  apply (proj1 (C1_follow_outranks_route idealMap followingProps freshRefs
                  worldView)).
  left. reflexivity.
Defined.




(** The distance of the follow branch is the planar one: a position
    0.00008 degrees away on each axis is within 0.0001 of the centre on both
    axes, and beyond 0.0001 of it in the plane; the camera is moved. *)
Lemma follow_distance_is_planar :
  gt (abs (sub (lat firstFix) (lat diagonalFix))) followThreshold = false
  /\ gt (abs (sub (lng firstFix) (lng diagonalFix))) followThreshold = false
  /\ gt (dist (lat firstFix, lng firstFix) diagonalFix) followThreshold = true
  /\ option_map calls
       (MapUpdater idealMap (followingAt diagonalFix) freshRefs cityView)
     = Some [SetView (lat diagonalFix, lng diagonalFix) (ofZ 2)
               followOptions].
Proof. vm_compute. repeat split. Qed.

(** Where the flags leave the three modes: a trip has started and the follow
    flag is down.  The mode read off the flags is Idle; a route is fitted,
    and without a route the position of the user is still followed. *)
Lemma trip_without_follow :
  propsMode (tripUnfollowed None farFix) = Idle
  /\ option_map calls
       (MapUpdater idealMap (tripUnfollowed (Some sampleRoute) farFix)
          mountedRefs cityView)
     = Some [FitBounds (route_coordinates sampleRoute) routeFitOptions]
  /\ option_map calls
       (MapUpdater idealMap (tripUnfollowed None farFix) mountedRefs cityView)
     = Some [SetView (lat farFix, lng farFix) (ofZ 2) followOptions].
Proof. vm_compute. repeat split. Qed.



Section InvalidFacts.

Variable L : Leaflet.



End InvalidFacts.






(* ================================================================== *)
(** * Checks of the model on literals *)
(* ================================================================== *)

(** [parseFloat] agrees with the floating-point literals of the system on
    the numerals of the examples, and follows the grammar of
    StrDecimalLiteral on the rest. *)
Example parseFloat_samples :
  parseFloat (lit "0.0001") = Prim2SF 0.0001%float
  /\ parseFloat (lit " 40.71xyz") = Prim2SF 40.71%float
  /\ parseFloat (lit "-74.00") = Prim2SF (-74)%float
  /\ parseFloat (lit "1e3") = Prim2SF 1000%float
  /\ parseFloat (lit "5.e-1") = Prim2SF 0.5%float
  /\ parseFloat (lit ".5e") = Prim2SF 0.5%float
  /\ parseFloat (lit "123456789012345678901234567890e-10")
     = Prim2SF 12345678901234567890.1234567890%float
  /\ parseFloat (lit "5e-324") = Prim2SF 5e-324%float
  /\ parseFloat (lit "1.7976931348623157e308")
     = Prim2SF 1.7976931348623157e308%float
  /\ parseFloat (lit "-0") = S754_zero true
  /\ parseFloat (lit "2e-324") = S754_zero false
  /\ parseFloat (lit "1e400") = S754_infinity false
  /\ parseFloat (lit "-Infinity") = S754_infinity true
  /\ parseFloat (lit "40,71") = Prim2SF 40%float
  /\ parseFloat (lit ".") = S754_nan
  /\ parseFloat (lit "abc") = S754_nan
  /\ parseFloat (lit "") = S754_nan.
Proof. vm_compute. repeat split. Qed.

(** The literals of the components are the binary64 values of their
    numerals. *)
Example literals :
  originEpsilon = Prim2SF 0.0001%float
  /\ followThreshold = Prim2SF 0.0001%float
  /\ centerEpsilon = Prim2SF 0.000001%float
  /\ pan_duration centerOptions = Prim2SF 1.5%float
  /\ easeLinearity followOptions = Prim2SF 0.25%float
  /\ ofZ 16 = Prim2SF 16%float.
Proof. vm_compute. repeat split. Qed.

(** The example of the system instruction. *)
Example parse_blue_bottle :
  shown (parseResponse sampleId
           (lit "I found a great cafe. "
            ++ lit "{{DATA:Blue Bottle Coffee|40.7128|-74.0060|123 Broadway, NY}}"))
  = Some (lit "I found a great cafe. ")
  /\ names (parseResponse sampleId
              (lit "I found a great cafe. "
               ++ lit "{{DATA:Blue Bottle Coffee|40.7128|-74.0060|123 Broadway, NY}}"))
     = Some [lit "Blue Bottle Coffee"].
Proof. vm_compute. split; reflexivity. Qed.

(** A tag with a missing field, or with a closing brace in its address, is
    not matched and stays in the display text. *)
Example malformed_tags_stay :
  shown (parseResponse sampleId (lit "a {{DATA:x|1|2}} b {{DATA:a|1|2|d}e}} c"))
  = Some (lit "a {{DATA:x|1|2}} b {{DATA:a|1|2|d}e}} c")
  /\ names (parseResponse sampleId
              (lit "a {{DATA:x|1|2}} b {{DATA:a|1|2|d}e}} c"))
     = Some [].
Proof. vm_compute. split; reflexivity. Qed.

(* ================================================================== *)
(** * What the protocol hands to the rest of the application *)
(* ================================================================== *)

Section TrimFacts.

Lemma trimStart_head (s : jsstring) :
  trimStart s = []
  \/ exists c r, trimStart s = c :: r /\ isWhiteSpace c = false.
Proof.
  induction s as [|x s IH]; [left; reflexivity|].
  cbn [trimStart]. destruct (isWhiteSpace x) eqn:X; [exact IH|].
  right. exists x, s. split; [reflexivity|exact X].
Qed.

Lemma trimStart_idem (s : jsstring) : trimStart (trimStart s) = trimStart s.
Proof.
  destruct (trimStart_head s) as [->|(c & r & -> & Hc)]; [reflexivity|].
  cbn [trimStart]. rewrite Hc. reflexivity.
Qed.

Lemma trimEnd_idem (s : jsstring) : trimEnd (trimEnd s) = trimEnd s.
Proof.
  unfold trimEnd. rewrite rev_involutive, trimStart_idem. reflexivity.
Qed.

(** [trim] leaves a trimmed string as it is. *)
Lemma trim_idem (s : jsstring) : trim (trim s) = trim s.
Proof.
  unfold trim.
  destruct (trimStart_head s) as [->|(c & r & -> & Hc)]; [reflexivity|].
  pose proof (trimEnd_solid [] c r Hc) as E. cbn [app] in E. rewrite E.
  cbn [trimStart]. rewrite Hc.
  pose proof (trimEnd_solid [] c (trimEnd r) Hc) as E'. cbn [app] in E'.
  rewrite E', trimEnd_idem. reflexivity.
Qed.

End TrimFacts.

Section ParsedPlaces.

Variable randomId : nat -> jsstring.

Lemma placesFrom_inv (ts : list Tag) (pl : Place) :
  forall d,
    In pl (placesFrom randomId d ts) ->
    exists t d', In t ts /\ dropped t = false /\ pl = placeAt randomId d' t.
Proof.
  induction ts as [|t ts IH]; intros d Hin; [destruct Hin|].
  cbn [placesFrom] in Hin. rewrite placeOfTag_dropped in Hin.
  destruct (dropped t) eqn:D.
  - destruct (IH d Hin) as (t' & d' & Ht & Hd & E).
    exists t', d'. repeat split; auto. right. exact Ht.
  - destruct Hin as [<-|Hin].
    + exists t, d. repeat split; auto. left. reflexivity.
    + destruct (IH (S d) Hin) as (t' & d' & Ht & Hd & E).
      exists t', d'. repeat split; auto. right. exact Ht.
Qed.

Lemma kept_valid (t : Tag) :
  dropped t = false ->
  isValidCoord (tagLatitude t) (tagLongitude t) = true.
Proof.
  unfold dropped, isValidCoord.
  destruct (isNaN (tagLatitude t)), (isFinite (tagLatitude t)),
    (isNaN (tagLongitude t)), (isFinite (tagLongitude t));
    cbn [negb orb andb]; intros H; try discriminate; reflexivity.
Qed.

(** Every place of a result passes the test of the map. *)
Lemma parsed_place_valid (text : jsstring) (r : ParseResult) (pl : Place) :
  parseResponse randomId text = Some r -> In pl (places r) ->
  isValidCoord (lat (coordinates pl)) (lng (coordinates pl)) = true.
Proof.
  intros H Hin. destruct (parseResponse_cut randomId text) as (_ & _ & E).
  rewrite E in H. inversion H; subst r. cbn [places] in Hin.
  destruct (placesFrom_inv _ _ _ Hin) as (t & d & _ & D & ->).
  apply (kept_valid t D).
Qed.

Lemma filter_all {A : Type} (f : A -> bool) (l : list A) :
  (forall x, In x l -> f x = true) -> filter f l = l.
Proof.
  induction l as [|x l IH]; intros H; [reflexivity|].
  cbn [filter]. rewrite (H x (or_introl eq_refl)). f_equal.
  apply IH. intros y Hy. apply H. right. exact Hy.
Qed.

End ParsedPlaces.

(** X1.  Every place [parseResponse] returns is complete: its coordinates
    pass [isValidCoord] and carry no accuracy, its name and its address are
    trimmed, so that trimming them again changes nothing, and its
    description is the address after the words "Located at ". *)
Theorem parsed_places_complete (randomId : nat -> jsstring)
  (text : jsstring) (r : ParseResult) (pl : Place) :
  parseResponse randomId text = Some r -> In pl (places r) ->
  isValidCoord (lat (coordinates pl)) (lng (coordinates pl)) = true
  /\ accuracy (coordinates pl) = None
  /\ trim (name pl) = name pl
  /\ exists a,
       address pl = Some a /\ trim a = a
       /\ description pl = Some (lit "Located at " ++ a).
Proof.
  intros H Hin.
  split; [exact (parsed_place_valid randomId text r pl H Hin)|].
  destruct (parseResponse_cut randomId text) as (_ & _ & E).
  rewrite E in H. inversion H; subst r. cbn [places] in Hin.
  destruct (placesFrom_inv _ _ _ _ Hin) as (t & d & _ & _ & ->).
  unfold placeAt. cbn [coordinates name address description].
  split; [reflexivity|]. split; [apply trim_idem|].
  exists (trim (tagAddress t)).
  repeat split; try reflexivity. apply trim_idem.
Qed.

Lemma parsed_places_complete_witness :
  isValidCoord (degrees "0.0002") (degrees "0.0002") = true
  /\ trim (lit "Real") = lit "Real"
  /\ exists a,
       Some (lit "Somewhere") = Some a /\ trim a = a
       /\ Some (lit "Located at Somewhere") = Some (lit "Located at " ++ a).
Proof.
  pose proof (parsed_places_complete sampleId realText
                {| cleanText := [];
                   places := [placeAt sampleId 0
                                {| tagName := lit "Real";
                                   tagLat := lit "0.0002";
                                   tagLng := lit "0.0002";
                                   tagAddress := lit "Somewhere" |}] |}
                _ eq_refl (or_introl eq_refl)) as (V & _ & N & D).
  exact (conj V (conj N D)).
Defined.

(* ================================================================== *)
(** * The call of the model *)
(* ================================================================== *)



(* ================================================================== *)
(** * The places of an answer on the map *)
(* ================================================================== *)

(** X3.  The button that fits all places leaves out none of the places
    [parseResponse] returns: its filter keeps them all, and the only call it
    can make fits the coordinates of all of them, in their order.  It makes
    that call when there is a place and the map accepts the bounds. *)
Theorem parsed_places_all_fitted (L : Leaflet) (randomId : nat -> jsstring)
  (text : jsstring) (r : ParseResult) (m : Map L) :
  parseResponse randomId text = Some r ->
  filter (fun pl => isValidCoord (lat (coordinates pl))
                      (lng (coordinates pl))) (places r) = places r
  /\ exists cs m',
       FitBoundsControl L (places r) m = Some (cs, m')
       /\ (forall c, In c cs -> c = FitBounds (pointsOf (places r))
                                     showAllOptions)
       /\ (forall b m1,
             places r <> [] ->
             latLngBounds L (pointsOf (places r)) = Some b ->
             isValid L b = true ->
             fitBounds L b showAllOptions m = Some m1 ->
             cs = [FitBounds (pointsOf (places r)) showAllOptions]
             /\ m' = m1).
Proof.
  intros H.
  assert (F : filter (fun pl => isValidCoord (lat (coordinates pl))
                                  (lng (coordinates pl))) (places r)
              = places r).
  { apply filter_all. intros pl Hin.
    exact (parsed_place_valid randomId text r pl H Hin). }
  split; [exact F|].
  unfold FitBoundsControl. rewrite F. fold (pointsOf (places r)).
  destruct (places r) as [|pl ps] eqn:P.
  - exists [], m. split; [reflexivity|].
    split; [intros c []|]. intros b m1 Hne. congruence.
  - destruct (latLngBounds L (pointsOf (pl :: ps))) as [b|] eqn:B.
    + destruct (isValid L b) eqn:V.
      * destruct (fitBounds L b showAllOptions m) as [m1|] eqn:Fb.
        -- eexists. eexists. split; [reflexivity|].
           split; [intros c [<-|[]]; reflexivity|].
           intros b' m1' _ E V' Fb'. inversion E; subst b'.
           rewrite Fb in Fb'. inversion Fb'. auto.
        -- eexists. eexists. split; [reflexivity|].
           split; [intros c []|].
           intros b' m1' _ E V' Fb'. inversion E; subst b'. congruence.
      * eexists. eexists. split; [reflexivity|].
        split; [intros c []|].
        intros b' m1' _ E V' Fb'. inversion E; subst b'. congruence.
    + eexists. eexists. split; [reflexivity|].
      split; [intros c []|]. intros b' m1' _ E. discriminate.
Qed.


Lemma parsed_places_all_fitted_witness :
  exists r,
    parseResponse sampleId orderText = Some r
    /\ FitBoundsControl idealMap (places r) worldView
       = Some ([FitBounds [(ofZ 1, ofZ 1); (ofZ 2, ofZ 2)] showAllOptions],
               ((ofZ 1, ofZ 1), ofZ 2)).
Proof.
  destruct (parseResponse_total sampleId orderText) as [r E].
  exists r. split; [exact E|].
  destruct (parsed_places_all_fitted idealMap sampleId orderText r worldView E)
    as (_ & cs & m' & F & _ & G).
  rewrite F.
  assert (P : places r
              = placesFrom sampleId 0 (matchedTags orderText)).
  { destruct (parseResponse_cut sampleId orderText) as (_ & _ & E').
    rewrite E' in E. inversion E. reflexivity. }
  destruct (G (pointsOf (places r))
              (match pointsOf (places r) with
               | [] => fst worldView
               | c :: _ => c
               end, snd worldView)) as [-> ->].
  - rewrite P. vm_compute. discriminate.
  - reflexivity.
  - rewrite P. reflexivity.
  - reflexivity.
  - rewrite P. reflexivity.
Defined.

(* ================================================================== *)
(** * The map and the application *)
(* ================================================================== *)

Import Service MapEvents App.

Section EchoFacts.

Variable L : Leaflet.

(** A valid centre that was applied is not a changed centre. *)
Lemma centerChanged_same (p : Props) (z : option number) :
  isValidCoord (lat (center p)) (lng (center p)) = true ->
  centerChanged p {| lastAppliedCenter := Some (center p);
                     lastAppliedZoom := z |} = false.
Proof.
  intros V. destruct (valid_parts _ _ V) as (N1 & F1 & N2 & F2).
  unfold centerChanged. cbn [lastAppliedCenter].
  rewrite (sub_same _ N1 F1), (sub_same _ N2 F2). reflexivity.
Qed.

(** The zoom the effect asks for when the properties carry the zoom of the
    map. *)
Lemma targetZoom_of_map (p : Props) (m : Map L) :
  zoom p = Some (getZoom L m) -> targetZoom L p m = getZoom L m.
Proof.
  intros Z. unfold targetZoom. rewrite Z.
  destruct (truthy (getZoom L m)); reflexivity.
Qed.

(** Without a trip, a follow or a route the effect is its last branch. *)
Lemma MapUpdater_idle (p : Props) (rf : Refs) (m : Map L) :
  isNavigating p = false -> isFollowingUser p = false ->
  routeData p = None ->
  MapUpdater L p rf m = Some (applyCenter L p rf m).
Proof.
  intros N F R. unfold MapUpdater, routeFitGuard, followGuard.
  rewrite N, F, R. reflexivity.
Qed.

End EchoFacts.

(** X4.  When the map reports where it stands ([moveend] or [zoomend], which
    are handled alike), [App] stores that centre and zoom and the effect runs
    on them.  With no follow, trip or route the effect can only send the map
    to where it already is, and once that is done the next report sends
    nothing: the exchange between the map and the effect ends.  The map is
    one that accepts a [setView] to its own centre and zoom and stays
    there. *)
Theorem moveend_echo_settles (L : Leaflet) (a : Screen) (rf : Refs)
  (m m1 : Map L) :
  app_isFollowingUser (view a) = false ->
  app_isNavigating (view a) = false ->
  app_routeData (view a) = None ->
  isValidCoord (fst (getCenter L m)) (snd (getCenter L m)) = true ->
  isNaN (getZoom L m) = false ->
  setView L (getCenter L m) (getZoom L m) centerOptions m = Some m1 ->
  getCenter L m1 = getCenter L m -> getZoom L m1 = getZoom L m ->
  mapEvent (zoomend m) a = mapEvent (moveend m) a
  /\ exists run1,
       MapUpdater L (mapProps (view (mapEvent (moveend m) a))) rf m
       = Some run1
       /\ (forall c, In c (calls run1) ->
             c = SetView (getCenter L m) (getZoom L m) centerOptions)
       /\ getCenter L (map run1) = getCenter L m
       /\ getZoom L (map run1) = getZoom L m
       /\ MapUpdater L
            (mapProps (view (mapEvent (moveend (map run1))
                               (mapEvent (moveend m) a))))
            (refs run1) (map run1)
          = Some {| calls := []; refs := refs run1; map := map run1 |}.
Proof.
  intros F N R V Nz S1 C1 Z1. split; [reflexivity|].
  set (p := mapProps (view (mapEvent (moveend m) a))).
  assert (Pc : center p = {| lat := fst (getCenter L m);
                             lng := snd (getCenter L m);
                             accuracy := None |}) by reflexivity.
  assert (Pz : zoom p = Some (getZoom L m)) by reflexivity.
  assert (E : forall rf0 m0,
            MapUpdater L p rf0 m0 = Some (applyCenter L p rf0 m0)).
  { intros rf0 m0. apply MapUpdater_idle; [exact N|exact F|exact R]. }
  assert (Vp : isValidCoord (lat (center p)) (lng (center p)) = true)
    by (rewrite Pc; exact V).
  assert (T : targetZoom L p m = getZoom L m)
    by (apply targetZoom_of_map; exact Pz).
  assert (Sv : setView L (lat (center p), lng (center p)) (targetZoom L p m)
                 centerOptions m = Some m1).
  { rewrite T, Pc. cbn [lat lng]. rewrite <- surjective_pairing. exact S1. }
  assert (P2 : forall m0, getCenter L m0 = getCenter L m ->
               getZoom L m0 = getZoom L m ->
               mapProps (view (mapEvent (moveend m0) (mapEvent (moveend m) a)))
               = p).
  { intros m0 C0 Z0. unfold p, mapEvent, MapEventHandler, mapProps.
    cbn. rewrite C0, Z0. reflexivity. }
  exists (applyCenter L p rf m). split; [apply E|].
  unfold applyCenter. rewrite Vp. cbn [negb].
  destruct (centerChanged p rf || zoomChanged L p rf m) eqn:Ch.
  - rewrite Sv. cbn [calls refs map].
    split.
    { intros c [<-|[]]. rewrite T, Pc. cbn [lat lng].
      rewrite <- surjective_pairing. reflexivity. }
    split; [exact C1|]. split; [exact Z1|].
    rewrite (P2 m1 C1 Z1), E. f_equal. unfold applyCenter.
    rewrite Vp. cbn [negb]. rewrite (centerChanged_same p _ Vp).
    unfold zoomChanged. cbn [lastAppliedZoom orb].
    assert (T1 : targetZoom L p m1 = getZoom L m).
    { rewrite <- Z1. apply targetZoom_of_map. rewrite Z1. exact Pz. }
    rewrite T, T1, (strictNeq_same _ Nz). reflexivity.
  - cbn [calls refs map].
    split; [intros c []|]. split; [reflexivity|]. split; [reflexivity|].
    rewrite (P2 m eq_refl eq_refl), E. f_equal. unfold applyCenter.
    rewrite Vp, Ch. reflexivity.
Qed.

Lemma moveend_echo_settles_witness :
  exists run1,
    MapUpdater idealMap
      (mapProps (view (mapEvent (L := idealMap) (moveend cityView) initial)))
      mountedRefs cityView = Some run1
    /\ calls run1
       = [SetView (degrees "40.7128", degrees "-74.0060") (ofZ 2)
            centerOptions]
    /\ MapUpdater idealMap
         (mapProps (view (mapEvent (L := idealMap) (moveend (map run1))
                            (mapEvent (L := idealMap) (moveend cityView)
                               initial))))
         (refs run1) (map run1)
       = Some {| calls := []; refs := refs run1; map := map run1 |}.
Proof.
  destruct (moveend_echo_settles idealMap initial mountedRefs cityView
              cityView eq_refl eq_refl eq_refl eq_refl eq_refl eq_refl
              eq_refl eq_refl)
    as (_ & run1 & E & _ & _ & _ & S2).
  exists run1. split; [exact E|]. split; [|exact S2].
  vm_compute in E. inversion E. reflexivity.
Defined.

(* ================================================================== *)
(** * The routing control *)
(* ================================================================== *)

Section RoutingFacts.

Import Routing.

Lemma runCleanup_clears (s : Component) :
  consistent s -> neverSet s ->
  routingControlRef (runCleanup s) = None
  /\ onMap (runCleanup s) = []
  /\ cleanup (runCleanup s) = false
  /\ created (runCleanup s) = created s
  /\ neverSet (runCleanup s).
Proof.
  unfold consistent, runCleanup, removeCurrent, neverSet.
  destruct (routingControlRef s) as [c|] eqn:R.
  - intros [K [w W]] T. rewrite K, W. cbn. rewrite Nat.eqb_refl. cbn.
    repeat split. intros c' w' Hin. apply in_app_or in Hin as [Hin|Hin].
    + exact (T _ _ Hin).
    + destruct Hin as [Hin|[]]. discriminate.
  - intros [M K] T. rewrite K. repeat split; auto.
Qed.

Lemma render_consistent rd u d (s : Component) :
  consistent s -> neverSet s ->
  consistent (render rd u d s) /\ neverSet (render rd u d s)
  /\ match rd, ends u d with
     | None, Some w =>
         routingControlRef (render rd u d s) = Some (created s)
         /\ onMap (render rd u d s)
            = [{| control_id := created s; waypoints := w |}]
     | _, _ =>
         routingControlRef (render rd u d s) = None
         /\ onMap (render rd u d s) = []
     end.
Proof.
  intros C T.
  destruct (runCleanup_clears s C T) as (R & M & K & N & T').
  unfold render. destruct rd as [r|].
  - cbn. rewrite M. repeat split; auto.
  - unfold effect. destruct (ends u d) as [w|].
    + rewrite R, M, N. cbn. repeat split; eauto.
      intros c' w' Hin. apply in_app_or in Hin as [Hin|Hin].
      * exact (T' _ _ Hin).
      * destruct Hin as [Hin|[]]. discriminate.
    + unfold removeCurrent. rewrite R. unfold consistent. cbn.
      rewrite R, M. repeat split; auto.
Qed.

Lemma renders_consistent rs :
  forall s, consistent s -> neverSet s ->
            consistent (renders rs s) /\ neverSet (renders rs s).
Proof.
  induction rs as [|[[rd u] d] rs IH]; intros s C T; [auto|].
  cbn. destruct (render_consistent rd u d s C T) as (C' & T' & _).
  apply IH; assumption.
Qed.

End RoutingFacts.

(** X5.  Under the order in which effects and their cleanups run, the
    reference of [RoutingControl] is empty whenever its effect starts.  So
    the component never sets the waypoints of a control it holds: each render
    with a valid user location and a valid destination, and no route data,
    removes the control of the render before and puts one new control on the
    map, with these two waypoints.  After any other render the map holds no
    routing control.  The map never holds two. *)
Theorem routing_control_lifecycle
  (rs : list (option RouteData * option Coordinates * option Coordinates))
  (rd : option RouteData) (u d : option Coordinates) :
  let s := Routing.renders (rs ++ [(rd, u, d)]) Routing.unmounted in
  (forall c w, ~ In (Routing.SetWaypoints c w) (Routing.trace s))
  /\ match rd, Routing.ends u d with
     | None, Some w =>
         exists c,
           Routing.routingControlRef s = Some c
           /\ Routing.onMap s
              = [{| Routing.control_id := c; Routing.waypoints := w |}]
     | _, _ =>
         Routing.routingControlRef s = None /\ Routing.onMap s = []
     end.
Proof.
  cbn zeta. unfold Routing.renders. rewrite fold_left_app. cbn [fold_left].
  fold (Routing.renders rs Routing.unmounted).
  cbn [fst snd].
  destruct (renders_consistent rs Routing.unmounted) as [C T].
  { unfold Routing.consistent. cbn. auto. }
  { intros c w []. }
  destruct (render_consistent rd u d _ C T) as (_ & T' & H).
  split; [exact T'|].
  destruct rd; [exact H|]. destruct (Routing.ends u d); [|exact H].
  destruct H as [H1 H2]. eauto.
Qed.

(* ================================================================== *)
(** * The flags of the application *)
(* ================================================================== *)

Section FlagFacts.

Variable hasGeolocation : bool.
Variable routeFoundText : number -> number -> jsstring.

Lemma startLocationWatch_view (w : Watch) (a : Screen) :
  view (startLocationWatch hasGeolocation w a) = view a.
Proof.
  unfold startLocationWatch, onError.
  destruct hasGeolocation; [reflexivity|]. destruct w; reflexivity.
Qed.

(** No event changes [isNavigating]. *)
Lemma step_isNavigating (e : Event) (a : Screen) :
  app_isNavigating (view (step hasGeolocation routeFoundText e a))
  = app_isNavigating (view a).
Proof.
  destruct e; cbn [step].
  - unfold handleManualLocate.
    destruct (manualLocation (view a)).
    + cbn. destruct (gpsLocation (view a)); reflexivity.
    + destruct (gpsLocation (view a));
        [|rewrite startLocationWatch_view];
        destruct (app_isFollowingUser (view a)); reflexivity.
  - reflexivity.
  - reflexivity.
  - cbn. unfold handleMapDrag.
    destruct (app_isFollowingUser (view a)); reflexivity.
  - unfold handlePlaceSelect. destruct (find _ _) as [pl|]; [|reflexivity].
    destruct (negb _); reflexivity.
  - unfold searchStart. destruct (trim (query a)); reflexivity.
  - unfold searchEnd. destruct answer as [response|]; [|reflexivity].
    destruct (msg_places response) as [[|pl ps]|]; try reflexivity.
    destruct (negb _); reflexivity.
  - reflexivity.
  - reflexivity.
  - reflexivity.
  - reflexivity.
  - reflexivity.
  - destruct (watching w a); [|reflexivity].
    unfold positionSuccess, onPosition.
    destruct (negb (isNaN la) && negb (isNaN ln)); [|reflexivity].
    destruct w; reflexivity.
  - destruct (watching w a); [|reflexivity].
    unfold positionError. destruct w; reflexivity.
Qed.

Lemma run_isNavigating (es : list Event) :
  forall a,
    app_isNavigating (view (run hasGeolocation routeFoundText es a))
    = app_isNavigating (view a).
Proof.
  induction es as [|e es IH]; intros a; [reflexivity|].
  cbn [run fold_left].
  fold (run hasGeolocation routeFoundText es
          (step hasGeolocation routeFoundText e a)).
  rewrite IH. apply step_isNavigating.
Qed.

End FlagFacts.

(** X6.  No callback that [App] hands to a component, and no callback of a
    position watch, changes [isNavigating]: only [handleStartTrip] raises
    it, and no component is given [handleStartTrip].  From its first render
    on the application therefore never navigates, and the effect of the map
    follows the user only while [isFollowingUser] is up. *)
Theorem ui_never_navigates (hasGeolocation : bool)
  (routeFoundText : number -> number -> jsstring) (es : list Event) :
  (forall a,
     app_isNavigating (view (run hasGeolocation routeFoundText es a))
     = app_isNavigating (view a))
  /\ app_isNavigating
       (view (run hasGeolocation routeFoundText es (mounted hasGeolocation)))
     = false
  /\ (forall u,
        followGuard
          (mapProps (view (run hasGeolocation routeFoundText es
                             (mounted hasGeolocation)))) = Some u ->
        app_isFollowingUser
          (view (run hasGeolocation routeFoundText es
                   (mounted hasGeolocation))) = true).
Proof.
  assert (M : app_isNavigating
                (view (run hasGeolocation routeFoundText es
                         (mounted hasGeolocation))) = false).
  { rewrite run_isNavigating. unfold mounted, mount.
    rewrite startLocationWatch_view. reflexivity. }
  split; [apply run_isNavigating|]. split; [exact M|].
  intros u. unfold followGuard, mapProps. cbn [isNavigating isFollowingUser].
  rewrite M. cbn [orb].
  destruct (app_isFollowingUser _); [reflexivity|discriminate].
Qed.

(* ================================================================== *)
(** * The position watch of the locate button *)
(* ================================================================== *)

Section WatchFacts.

Variable hasGeolocation : bool.
Variable routeFoundText : number -> number -> jsstring.

Lemma watching_app (w : Watch) (a : Screen) (l : list Watch) (b : Screen) :
  watches b = watches a ++ l -> watching w a = true -> watching w b = true.
Proof.
  unfold watching. intros -> H. rewrite existsb_app, H. reflexivity.
Qed.

Lemma startLocationWatch_watches (w : Watch) (a : Screen) :
  exists l, watches (startLocationWatch hasGeolocation w a) = watches a ++ l.
Proof.
  unfold startLocationWatch, onError. destruct hasGeolocation.
  - exists [w]. reflexivity.
  - exists []. rewrite app_nil_r. destruct w; reflexivity.
Qed.

(** No event stops a watch. *)
Lemma step_watches (e : Event) (a : Screen) :
  exists l,
    watches (step hasGeolocation routeFoundText e a) = watches a ++ l.
Proof.
  assert (Z : exists l : list Watch, watches a = watches a ++ l)
    by (exists []; rewrite app_nil_r; reflexivity).
  destruct e; cbn [step]; try exact Z.
  - unfold handleManualLocate.
    destruct (manualLocation (view a)); [exact Z|].
    destruct (gpsLocation (view a)).
    + destruct (app_isFollowingUser (view a)); exact Z.
    + destruct (app_isFollowingUser (view a));
        match goal with
        | |- exists l, watches (startLocationWatch _ _ ?x) = _ =>
            destruct (startLocationWatch_watches locateWatch x) as [l E];
            exists l; exact E
        end.
  - unfold handlePlaceSelect. destruct (find _ _) as [pl|]; [|exact Z].
    destruct (negb _); exact Z.
  - unfold searchStart. destruct (trim (query a)); exact Z.
  - unfold searchEnd. destruct answer as [response|]; [|exact Z].
    destruct (msg_places response) as [[|pl ps]|]; try exact Z.
    destruct (negb _); exact Z.
  - destruct (watching w a); [|exact Z].
    unfold positionSuccess.
    destruct (negb (isNaN la) && negb (isNaN ln)); [|exact Z].
    destruct w; exact Z.
  - destruct (watching w a); [|exact Z].
    unfold positionError. destruct w; exact Z.
Qed.

End WatchFacts.

(** X7.  Pressing the locate button while no position is known starts a
    position watch of its own, and nothing stops it.  From then on every
    position this watch reports raises [isFollowingUser], centres the map on
    the position at zoom 16 and clears the selected place, whatever happened
    in between.  In particular a drag of the map does not keep the camera
    from following the next position the watch reports. *)
Theorem locate_watch_follows_again (hasGeolocation : bool)
  (routeFoundText : number -> number -> jsstring) :
  (forall a,
     hasGeolocation = true ->
     manualLocation (view a) = None -> gpsLocation (view a) = None ->
     watching locateWatch
       (step hasGeolocation routeFoundText LocatePressed a) = true)
  /\ (forall e a,
        watching locateWatch a = true ->
        watching locateWatch (step hasGeolocation routeFoundText e a) = true)
  /\ (forall a la ln acc,
        watching locateWatch a = true ->
        isNaN la = false -> isNaN ln = false ->
        let a' := step hasGeolocation routeFoundText
                    (PositionReported locateWatch la ln acc) a in
        let position := {| lat := la; lng := ln; accuracy := Some acc |} in
        app_isFollowingUser (view a') = true
        /\ mapCenter (view a') = position
        /\ mapZoom (view a') = ofZ 16
        /\ gpsLocation (view a') = Some position
        /\ selectedPlaceId a' = None)
  /\ (forall (L : Leaflet) a la ln acc rf (m : Map L),
        watching locateWatch a = true ->
        isValidCoord la ln = true ->
        manualLocation (view a) = None ->
        MapUpdater L
          (mapProps
             (view (step hasGeolocation routeFoundText
                      (PositionReported locateWatch la ln acc)
                      (step hasGeolocation routeFoundText MapDragged a))))
          rf m
        = Some (followUser L {| lat := la; lng := ln; accuracy := Some acc |}
                  rf m)).
Proof.
  assert (R : forall a la ln acc,
            watching locateWatch a = true ->
            isNaN la = false -> isNaN ln = false ->
            view (step hasGeolocation routeFoundText
                    (PositionReported locateWatch la ln acc) a)
            = setIsFollowingUser true
                (setMapZoom (ofZ 16)
                   (setMapCenter {| lat := la; lng := ln;
                                    accuracy := Some acc |}
                      (onPosition la ln acc (view a))))
            /\ selectedPlaceId
                 (step hasGeolocation routeFoundText
                    (PositionReported locateWatch la ln acc) a) = None).
  { intros a la ln acc W N1 N2. cbn [step]. rewrite W.
    unfold positionSuccess. rewrite N1, N2. cbn [negb andb].
    split; reflexivity. }
  split; [|split; [|split]].
  - intros a -> M G. cbn [step]. unfold handleManualLocate.
    rewrite M, G. unfold startLocationWatch, watching.
    destruct (app_isFollowingUser (view a)); cbn [watches watchPosition];
      rewrite existsb_app; cbn; apply orb_true_r.
  - intros e a W.
    destruct (step_watches hasGeolocation routeFoundText e a) as [l E].
    exact (watching_app locateWatch a l _ E W).
  - intros a la ln acc W N1 N2.
    destruct (R a la ln acc W N1 N2) as [V S]. cbn zeta.
    rewrite V, S. unfold onPosition. rewrite N1, N2. cbn.
    repeat split; reflexivity.
  - intros L a la ln acc rf m W V M.
    destruct (valid_parts _ _ V) as (N1 & _ & N2 & _).
    assert (W' : watching locateWatch
                   (step hasGeolocation routeFoundText MapDragged a) = true)
      by (cbn [step]; exact W).
    destruct (R _ la ln acc W' N1 N2) as [E _].
    apply MapUpdater_following.
    + rewrite E. reflexivity.
    + rewrite E. cbn [step view onView]. unfold onPosition.
      rewrite N1, N2. cbn.
      unfold handleMapDrag.
      destruct (app_isFollowingUser (view a)); cbn; rewrite ?M; reflexivity.
    + exact V.
Qed.

Lemma locate_watch_follows_again_witness :
  MapUpdater idealMap
    (mapProps
       (view (run true (fun _ _ => [])
                [LocatePressed; MapDragged;
                 PositionReported locateWatch (lat firstFix) (lng firstFix)
                   (ofZ 5)]
                (mounted true))))
    mountedRefs worldView
  = Some (Build_Run idealMap
            [SetView (lat firstFix, lng firstFix) (ofZ 2) followOptions]
            mountedRefs ((lat firstFix, lng firstFix), ofZ 2)).
Proof.
  cbn [run fold_left].
  rewrite (proj2 (proj2 (proj2 (locate_watch_follows_again true
                                  (fun _ _ => []))))
             idealMap (step true (fun _ _ => []) LocatePressed (mounted true))
             (lat firstFix) (lng firstFix) (ofZ 5) mountedRefs worldView
             eq_refl eq_refl eq_refl).
  reflexivity.
Defined.

(* ================================================================== *)
(** * The locate button, the drag and the stored centre *)
(* ================================================================== *)



(* ================================================================== *)
(** * The search *)
(* ================================================================== *)

(** X9.  A search whose answer holds at least one place replaces the places
    of the application by those of the answer, stores the coordinates of the
    first one as centre with zoom 14, lowers [isFollowingUser] and clears the
    selection.  The places of [sendMessageToGemini] always pass the test the
    handler makes on the first one.  Without a route the effect of the map
    then sends the camera to that place when it differs from what was last
    applied; with a route on display it fits the route again and the first
    place is not shown. *)
Theorem search_shows_first_place (L : Leaflet) (randomId : nat -> jsstring)
  (generateContent : Request -> option Response) (a a1 : Screen)
  (userQuery : jsstring) (location : option LatLng) (msg : ChatMessage)
  (pl : Place) (rest : list Place) :
  searchStart a = Some (a1, (userQuery, location)) ->
  sendMessageToGemini randomId generateContent userQuery location
  = Some msg ->
  msg_places msg = Some (pl :: rest) ->
  let a' := handleSearch (sendMessageToGemini randomId generateContent) a in
  app_places a' = pl :: rest
  /\ appState a' = RESULTS
  /\ selectedPlaceId a' = None
  /\ app_isFollowingUser (view a') = false
  /\ mapCenter (view a') = coordinates pl
  /\ mapZoom (view a') = ofZ 14
  /\ (forall rf (m m1 : Map L),
        app_isNavigating (view a) = false ->
        app_routeData (view a) = None ->
        centerChanged (mapProps (view a')) rf
        || zoomChanged L (mapProps (view a')) rf m = true ->
        setView L (lat (coordinates pl), lng (coordinates pl)) (ofZ 14)
          centerOptions m = Some m1 ->
        MapUpdater L (mapProps (view a')) rf m
        = Some {| calls := [SetView (lat (coordinates pl),
                                     lng (coordinates pl))
                              (ofZ 14) centerOptions];
                  refs := {| lastAppliedCenter := Some (coordinates pl);
                             lastAppliedZoom := Some (ofZ 14) |};
                  map := m1 |})
  /\ (forall r rf (m : Map L),
        app_routeData (view a) = Some r -> route_coordinates r <> [] ->
        MapUpdater L (mapProps (view a')) rf m = fitRoute L r rf m).
Proof.
  intros S Hm Hp. cbn zeta.
  assert (V : isValidCoord (lat (coordinates pl)) (lng (coordinates pl))
              = true).
  { unfold sendMessageToGemini in Hm.
    destruct (generateContent _) as [response|]; [|discriminate].
    destruct (parseResponse randomId (rawText response)) as [r|] eqn:E;
      [|discriminate].
    inversion Hm; subst msg. cbn [msg_places] in Hp. inversion Hp as [P].
    apply (parsed_place_valid randomId _ r pl E). rewrite P. left.
    reflexivity. }
  destruct (valid_parts _ _ V) as (N1 & _ & _ & _).
  unfold handleSearch. rewrite S, Hm. unfold searchEnd. rewrite Hp, N1.
  cbn [negb].
  assert (S1 : a1 = onView (setIsFollowingUser false)
                      (setErrorText None
                         (setSelectedPlaceId None
                            (setAiResponseText None (setAppState LOADING a))))).
  { unfold searchStart in S. destruct (trim (query a)); [discriminate|].
    inversion S. reflexivity. }
  subst a1.
  split; [reflexivity|]. split; [reflexivity|]. split; [reflexivity|].
  split; [reflexivity|]. split; [reflexivity|]. split; [reflexivity|].
  split.
  - intros rf m m1 N R Ch S1.
    match goal with
    | |- MapUpdater L ?q rf m = _ => set (p := q) in *
    end.
    assert (Pc : center p = coordinates pl) by reflexivity.
    assert (Pz : targetZoom L p m = ofZ 14) by reflexivity.
    rewrite (MapUpdater_idle L p rf m); [|exact N|reflexivity|exact R].
    unfold applyCenter. rewrite Pc, V, Ch, Pz, S1. reflexivity.
  - intros r rf m R Hne. unfold MapUpdater, routeFitGuard.
    cbn [mapProps routeData isFollowingUser view onView setAppState
           setAiResponseText setPlaces setMapZoom setMapCenter
           setIsFollowingUser setErrorText setSelectedPlaceId
           app_routeData app_isFollowingUser].
    rewrite R. destruct (route_coordinates r); [congruence|reflexivity].
Qed.

Lemma search_shows_first_place_witness :
  mapCenter (view (handleSearch (sendMessageToGemini sampleId twoPlaces)
                     asking))
  = {| lat := ofZ 1; lng := ofZ 1; accuracy := None |}
  /\ mapZoom (view (handleSearch (sendMessageToGemini sampleId twoPlaces)
                      asking)) = ofZ 14.
Proof.
  destruct (search_shows_first_place idealMap sampleId twoPlaces asking
              _ _ _ _ _ _ eq_refl eq_refl eq_refl)
    as (_ & _ & _ & _ & C & Z & _).
  split; [exact C|exact Z].
Defined.

(** X10.  A search that brings no place.  A blank query does nothing and
    calls nothing.  Otherwise the query is sent trimmed, with the user
    location when there is one.  When the call fails the application shows
    its error state and keeps the places, the centre and the zoom it had,
    with [isFollowingUser] lowered; when the answer holds no place the list
    of places is emptied, and the centre and the zoom stay. *)
Theorem search_without_places
  (sendMessage : jsstring -> option LatLng -> option ChatMessage)
  (a : Screen) :
  (trim (query a) = [] ->
   searchStart a = None /\ handleSearch sendMessage a = a)
  /\ (forall a1 userQuery location,
        searchStart a = Some (a1, (userQuery, location)) ->
        userQuery = trim (query a)
        /\ location
           = option_map (fun u => {| latitude := lat u; longitude := lng u |})
               (app_userLocation (view a))
        /\ (sendMessage userQuery location = None ->
            let a' := handleSearch sendMessage a in
            appState a' = ERROR
            /\ aiResponseText a'
               = Some (lit "I encountered an error. Please try again.")
            /\ app_places a' = app_places a
            /\ mapCenter (view a') = mapCenter (view a)
            /\ mapZoom (view a') = mapZoom (view a)
            /\ app_isFollowingUser (view a') = false)
        /\ (forall msg,
              sendMessage userQuery location = Some msg ->
              msg_places msg = Some [] ->
              let a' := handleSearch sendMessage a in
              appState a' = RESULTS
              /\ app_places a' = []
              /\ mapCenter (view a') = mapCenter (view a)
              /\ mapZoom (view a') = mapZoom (view a)
              /\ app_isFollowingUser (view a') = false)).
Proof.
  split.
  - intros B. unfold handleSearch, searchStart. rewrite B. split; reflexivity.
  - intros a1 userQuery location S.
    assert (S' := S). unfold searchStart in S'.
    destruct (trim (query a)) as [|c q] eqn:Q; [discriminate|].
    inversion S'; subst a1 userQuery location. clear S'.
    split; [reflexivity|]. split.
    { destruct (app_userLocation (view a)); reflexivity. }
    split.
    + intros F. cbn zeta. unfold handleSearch. rewrite S, F.
      repeat split; reflexivity.
    + intros msg F P. cbn zeta. unfold handleSearch. rewrite S, F.
      unfold searchEnd. rewrite P. repeat split; reflexivity.
Qed.

Lemma search_without_places_witness :
  appState (handleSearch (fun _ _ => None) asking) = ERROR
  /\ app_places (handleSearch (fun _ _ => None) asking) = []
  /\ mapZoom (view (handleSearch (fun _ _ => None) asking)) = ofZ 2.
Proof.
  destruct (proj2 (search_without_places (fun _ _ => None) asking)
              _ _ _ eq_refl) as (_ & _ & F & _).
  destruct (F eq_refl) as (S & _ & P & _ & Z & _).
  exact (conj S (conj P Z)).
Defined.

(* ================================================================== *)
(** * The start of a route *)
(* ================================================================== *)

Section StartFacts.

Variable hasGeolocation : bool.
Variable routeFoundText : number -> number -> jsstring.

Lemma step_manualLocation (e : Event) (a : Screen) :
  keepsStart e = true ->
  manualLocation (view (step hasGeolocation routeFoundText e a))
  = manualLocation (view a).
Proof.
  destruct e; cbn [keepsStart step]; intros K; try discriminate;
    try reflexivity.
  - cbn. unfold handleMapDrag.
    destruct (app_isFollowingUser (view a)); reflexivity.
  - unfold handlePlaceSelect. destruct (find _ _) as [pl|]; [|reflexivity].
    destruct (negb _); reflexivity.
  - unfold searchStart. destruct (trim (query a)); reflexivity.
  - unfold searchEnd. destruct answer as [response|]; [|reflexivity].
    destruct (msg_places response) as [[|pl ps]|]; try reflexivity.
    destruct (negb _); reflexivity.
  - destruct (watching w a); [|reflexivity].
    unfold positionSuccess, onPosition.
    destruct (negb (isNaN la) && negb (isNaN ln)); [|reflexivity].
    destruct w; reflexivity.
  - destruct (watching w a); [|reflexivity].
    unfold positionError. destruct w; reflexivity.
Qed.

Lemma run_manualLocation (es : list Event) :
  forallb keepsStart es = true ->
  forall a,
    manualLocation (view (run hasGeolocation routeFoundText es a))
    = manualLocation (view a).
Proof.
  induction es as [|e es IH]; intros K a; [reflexivity|].
  cbn [forallb] in K. apply andb_prop in K as [Ke Ks].
  cbn [run fold_left].
  fold (run hasGeolocation routeFoundText es
          (step hasGeolocation routeFoundText e a)).
  rewrite (IH Ks). apply step_manualLocation. exact Ke.
Qed.

End StartFacts.

(** X11.  A route of the planner makes its start the user location of the
    map: the start is stored as manual location, which goes before the GPS
    position.  Nothing but the locate button or another route changes it:
    not a position the watches report, not closing the planner.  The locate
    button then drops the manual location, so that the user location is the
    GPS position again, and raises [isFollowingUser]. *)
Theorem route_start_is_user_location (hasGeolocation : bool)
  (routeFoundText : number -> number -> jsstring) (route : RouteData)
  (start end_ : Coordinates) (es : list Event) (a : Screen) :
  forallb keepsStart es = true ->
  let a1 := run hasGeolocation routeFoundText es
              (step hasGeolocation routeFoundText
                 (RouteFound route start end_) a) in
  let a2 := step hasGeolocation routeFoundText LocatePressed a1 in
  app_userLocation (view a1) = Some start
  /\ userLocation (mapProps (view a1)) = Some start
  /\ manualLocation (view a2) = None
  /\ app_userLocation (view a2) = gpsLocation (view a1)
  /\ app_isFollowingUser (view a2) = true.
Proof.
  intros K. cbn zeta.
  assert (M : manualLocation
                (view (run hasGeolocation routeFoundText es
                         (step hasGeolocation routeFoundText
                            (RouteFound route start end_) a)))
              = Some start).
  { rewrite (run_manualLocation hasGeolocation routeFoundText es K).
    reflexivity. }
  set (a1 := run hasGeolocation routeFoundText es _) in *.
  assert (U : app_userLocation (view a1) = Some start)
    by (unfold app_userLocation; rewrite M; reflexivity).
  split; [exact U|]. split; [exact U|].
  cbn [step]. unfold handleManualLocate. rewrite M.
  unfold app_userLocation.
  destruct (gpsLocation (view a1)) eqn:G; cbn; rewrite ?G;
    repeat split; reflexivity.
Qed.

Lemma route_start_is_user_location_witness :
  app_userLocation
    (view (run true noText
             [PositionReported mountWatch (lat farFix) (lng farFix) (ofZ 5);
              PlannerCancelled]
             (step true noText
                (RouteFound sampleRoute firstFix secondFix) (mounted true))))
  = Some firstFix.
Proof.
  exact (proj1 (route_start_is_user_location true noText sampleRoute
                  firstFix secondFix
                  [PositionReported mountWatch (lat farFix) (lng farFix)
                     (ofZ 5);
                   PlannerCancelled]
                  (mounted true) eq_refl)).
Defined.

(* ================================================================== *)
(** * The selection of a place *)
(* ================================================================== *)

Lemma sameString_eq (x y : jsstring) : sameString x y = true <-> x = y.
Proof.
  revert y. induction x as [|c x IH]; intros [|d y]; cbn [sameString];
    split; intros H; try discriminate; try reflexivity.
  - apply andb_prop in H as [Hc Hx]. apply N.eqb_eq in Hc.
    apply IH in Hx. congruence.
  - inversion H; subst. rewrite N.eqb_refl. cbn [andb]. apply IH.
    reflexivity.
Qed.

Lemma find_first (i : jsstring) (pre : list Place) (p : Place)
  (post : list Place) :
  Forall (fun q => id q <> i) pre -> id p = i ->
  find (fun q => sameString (id q) i) (pre ++ p :: post) = Some p.
Proof.
  intros Hpre Hp. induction Hpre as [|q pre Hq _ IH]; cbn [app find].
  - rewrite (proj2 (sameString_eq (id p) i) Hp). reflexivity.
  - destruct (sameString (id q) i) eqn:E; [|exact IH].
    apply sameString_eq in E. contradiction.
Qed.

Lemma find_none (i : jsstring) (ps : list Place) :
  Forall (fun q => id q <> i) ps ->
  find (fun q => sameString (id q) i) ps = None.
Proof.
  intros H. induction H as [|q ps Hq _ IH]; cbn [find]; [reflexivity|].
  destruct (sameString (id q) i) eqn:E; [|exact IH].
  apply sameString_eq in E. contradiction.
Qed.

(** X12.  Selecting a place by its identifier stores the identifier and
    lowers [isFollowingUser] in every case.  The centre moves to the first
    place of the list that has this identifier, with zoom 16, when its
    latitude is a number; when no place has the identifier the centre and
    the zoom stay as they are. *)
Theorem place_select_centers_first_match (i : jsstring) (a : Screen) :
  selectedPlaceId (handlePlaceSelect i a) = Some i
  /\ app_isFollowingUser (view (handlePlaceSelect i a)) = false
  /\ (forall pre p post,
        app_places a = pre ++ p :: post ->
        Forall (fun q => id q <> i) pre -> id p = i ->
        isNaN (lat (coordinates p)) = false ->
        mapCenter (view (handlePlaceSelect i a)) = coordinates p
        /\ mapZoom (view (handlePlaceSelect i a)) = ofZ 16)
  /\ (Forall (fun q => id q <> i) (app_places a) ->
      mapCenter (view (handlePlaceSelect i a)) = mapCenter (view a)
      /\ mapZoom (view (handlePlaceSelect i a)) = mapZoom (view a)).
Proof.
  unfold handlePlaceSelect.
  split; [|split; [|split]].
  - destruct (find _ _) as [pl|]; [|reflexivity].
    destruct (negb _); reflexivity.
  - destruct (find _ _) as [pl|]; [|reflexivity].
    destruct (negb _); reflexivity.
  - intros pre p post E Hpre Hp N.
    rewrite E, (find_first i pre p post Hpre Hp), N. split; reflexivity.
  - intros H. rewrite (find_none i _ H). split; reflexivity.
Qed.

Lemma place_select_centers_first_match_witness :
  mapCenter
    (view (handlePlaceSelect (lit "1")
             (handleSearch (sendMessageToGemini sampleId twoPlaces) asking)))
  = {| lat := ofZ 2; lng := ofZ 2; accuracy := None |}
  /\ mapZoom
       (view (handlePlaceSelect (lit "1")
                (handleSearch (sendMessageToGemini sampleId twoPlaces)
                   asking))) = ofZ 16.
Proof.
  refine (proj1 (proj2 (proj2 (place_select_centers_first_match (lit "1")
                    (handleSearch (sendMessageToGemini sampleId twoPlaces)
                       asking))))
            [placeAt sampleId 0
               {| tagName := lit "A"; tagLat := lit "1"; tagLng := lit "1";
                  tagAddress := lit "x" |}]
            (placeAt sampleId 1
               {| tagName := lit "B"; tagLat := lit "2"; tagLng := lit "2";
                  tagAddress := lit "y" |})
            [] eq_refl _ eq_refl eq_refl).
  constructor; [|constructor]. vm_compute. discriminate.
Defined.

(* ================================================================== *)
(** * The route planner *)
(* ================================================================== *)

(** X13.  The route of a journey, from the router to the map.  With both
    ends chosen, [handleStartJourney] asks the router with each end as
    [[lng, lat]] and, when it answers with at least one route, hands on the
    first route with every point turned to [[lat, lng]], in the same number
    and order, together with the two ends; the alert is not shown and the
    loading flag is down again.  [App] then takes the start as user
    location, and the effect of the map fits exactly these points while
    [isFollowingUser] is down; while it is up the camera follows the start
    of the route. *)
Theorem journey_route_reaches_map (L : Leaflet) (hasGeolocation : bool)
  (routeFoundText : number -> number -> jsstring)
  (router : number * number -> number * number -> option Planner.OsrmData)
  (s : Planner.State) (a b : Coordinates) (data : Planner.OsrmData)
  (r : Planner.OsrmRoute) (rs : list Planner.OsrmRoute) (app : Screen) :
  Planner.startCoords s = Some a -> Planner.destCoords s = Some b ->
  router (lng a, lat a) (lng b, lat b) = Some data ->
  Planner.routes data = Some (r :: rs) ->
  let j := Planner.handleStartJourney router s in
  let route := {| route_coordinates := List.map Planner.flip
                                         (Planner.geometry r);
                  distance := Planner.osrm_distance r;
                  duration := Planner.osrm_duration r |} in
  let app' := step hasGeolocation routeFoundText (RouteFound route a b) app in
  Planner.found j = Some (route, a, b)
  /\ Planner.alerted j = false
  /\ Planner.isLoading (Planner.after j) = false
  /\ List.length (route_coordinates route)
     = List.length (Planner.geometry r)
  /\ (forall i, nth_error (route_coordinates route) i
                = option_map (fun c => (snd c, fst c))
                    (nth_error (Planner.geometry r) i))
  /\ app_userLocation (view app') = Some a
  /\ destinationLocation (view app') = Some b
  /\ (forall rf (m : Map L),
        app_isFollowingUser (view app) = false ->
        Planner.geometry r <> [] ->
        MapUpdater L (mapProps (view app')) rf m = fitRoute L route rf m)
  /\ (forall rf (m : Map L),
        app_isFollowingUser (view app) = true ->
        isValidCoord (lat a) (lng a) = true ->
        MapUpdater L (mapProps (view app')) rf m
        = Some (followUser L a rf m)).
Proof.
  intros Sa Sb R D. cbn zeta.
  unfold Planner.handleStartJourney. rewrite Sa, Sb, R, D.
  cbn [Planner.found Planner.alerted Planner.after route_coordinates].
  split; [reflexivity|]. split; [reflexivity|]. split; [reflexivity|].
  split; [apply length_map|].
  split; [intros i; apply nth_error_map|].
  split; [reflexivity|]. split; [reflexivity|]. split.
  - intros rf m F Hne. unfold MapUpdater, routeFitGuard.
    cbn [step handleRouteFound mapProps routeData isFollowingUser view
           onView setAiResponseText setDestinationLocation setManualLocation
           setRouteData app_routeData app_isFollowingUser
           route_coordinates].
    rewrite F. destruct (Planner.geometry r); [congruence|reflexivity].
  - intros rf m F V.
    apply MapUpdater_following; [exact F|reflexivity|exact V].
Qed.

Lemma journey_route_reaches_map_witness :
  MapUpdater idealMap
    (mapProps
       (view (step true noText
                (RouteFound
                   {| route_coordinates :=
                        [(degrees "40.7128", degrees "-74.0060");
                         (degrees "40.75", degrees "-74.00");
                         (degrees "40.80", degrees "-73.95")];
                      distance := ofZ 12000; duration := ofZ 900 |}
                   firstFix (at_ "40.80" "-73.95"))
                (mounted true))))
    mountedRefs worldView
  = Some (Build_Run idealMap
            [FitBounds [(degrees "40.7128", degrees "-74.0060");
                        (degrees "40.75", degrees "-74.00");
                        (degrees "40.80", degrees "-73.95")]
               routeFitOptions]
            mountedRefs
            ((degrees "40.7128", degrees "-74.0060"), ofZ 2)).
Proof.
  destruct (journey_route_reaches_map idealMap true noText oneRoute
              readyPlanner firstFix (at_ "40.80" "-73.95") _ _ _
              (mounted true) eq_refl eq_refl eq_refl eq_refl)
    as (_ & _ & _ & _ & _ & _ & _ & F & _).
  exact (F mountedRefs worldView eq_refl
           ltac:(cbn; discriminate)).
Defined.

(** X14.  Typing in a field of the planner.  The text typed takes the place
    of the coordinates of its field, so that [handleStartJourney] does
    nothing, and asks nothing of the router, until a suggestion is chosen
    for that field.  The two fields share one timer: when a text is typed in
    the start field and another in the destination field before the timer
    runs out, the start text is never looked up and the suggestions of the
    start stay what they were; the destination text is looked up once, and
    the timer then is spent.  A text of fewer than three code units empties
    the suggestions of its field without a look-up.  Choosing a suggestion
    stores the numbers [parseFloat] reads in its two strings and empties the
    suggestions of the field. *)
Theorem planner_typing
  (geocode : jsstring -> option (list Planner.Suggestion))
  (router : number * number -> number * number -> option Planner.OsrmData)
  (s : Planner.State) :
  (forall val t,
     Planner.handleStartJourney router (Planner.handleInput val t s)
     = {| Planner.after := Planner.handleInput val t s;
          Planner.found := None; Planner.alerted := false |})
  /\ (forall v1 v2,
        let typed := Planner.handleInput v2 Planner.dest
                       (Planner.handleInput v1 Planner.start s) in
        Planner.startSuggestions (Planner.timeout geocode typed)
        = Planner.startSuggestions s
        /\ Planner.destSuggestions (Planner.timeout geocode typed)
           = (if Nat.ltb (List.length v2) 3 then []
              else match geocode v2 with
                   | Some data => data
                   | None => Planner.destSuggestions s
                   end)
        /\ Planner.timeout geocode (Planner.timeout geocode typed)
           = Planner.timeout geocode typed)
  /\ (forall q s0 geocode',
        List.length q < 3 ->
        Planner.fetchSuggestions geocode q Planner.start s0
        = Planner.setStartSuggestions [] s0
        /\ Planner.fetchSuggestions geocode q Planner.dest s0
           = Planner.setDestSuggestions [] s0
        /\ forall t, Planner.fetchSuggestions geocode' q t s0
                     = Planner.fetchSuggestions geocode q t s0)
  /\ (forall sg,
        let chosen := {| lat := parseFloat (Planner.suggestion_lat sg);
                         lng := parseFloat (Planner.suggestion_lon sg);
                         accuracy := None |} in
        Planner.startCoords (Planner.handleSelect sg Planner.start s)
        = Some chosen
        /\ Planner.startSuggestions (Planner.handleSelect sg Planner.start s)
           = []
        /\ Planner.destCoords (Planner.handleSelect sg Planner.dest s)
           = Some chosen
        /\ Planner.destSuggestions (Planner.handleSelect sg Planner.dest s)
           = []).
Proof.
  split; [|split; [|split]].
  - intros val [|]; unfold Planner.handleStartJourney; cbn;
      [reflexivity|]. destruct (Planner.startCoords s); reflexivity.
  - intros v1 v2. cbn zeta. unfold Planner.timeout.
    cbn [Planner.handleInput Planner.debounceTimer Planner.setDebounceTimer].
    unfold Planner.fetchSuggestions.
    destruct (Nat.ltb (List.length v2) 3); [repeat split; reflexivity|].
    destruct (geocode v2); repeat split; reflexivity.
  - intros q s0 geocode' Hq. apply Nat.ltb_lt in Hq.
    unfold Planner.fetchSuggestions. rewrite Hq.
    split; [reflexivity|]. split; [reflexivity|]. intros t. reflexivity.
  - intros sg. cbn. repeat split; reflexivity.
Qed.

(** X15.  The start of the planner.  The effect on the user location fills
    the start field only while its text is empty, and fills it with the
    words "Current Location".  A planner opened at a position therefore
    keeps that position as start however the user moves afterwards; the
    start follows the user again only after the field was emptied. *)
Theorem planner_start_is_first_position (u1 : Coordinates)
  (d : option Coordinates) (us : list Coordinates) :
  let opened := Planner.syncUserLocation (Some u1)
                  (Planner.opening (Some u1) d) in
  Planner.startQuery opened = lit "Current Location"
  /\ positionsSeen us opened = opened
  /\ Planner.startCoords (positionsSeen us opened) = Some u1
  /\ (forall s, Planner.syncUserLocation None s = s)
  /\ (forall s u,
        Planner.startCoords
          (Planner.syncUserLocation (Some u)
             (Planner.handleInput [] Planner.start s)) = Some u).
Proof.
  cbn zeta.
  assert (K : forall s u, Planner.startQuery s <> [] ->
                          Planner.syncUserLocation (Some u) s = s).
  { intros s u H. unfold Planner.syncUserLocation.
    destruct (Planner.startQuery s); [congruence|reflexivity]. }
  assert (F : forall l s, Planner.startQuery s <> [] ->
                          positionsSeen l s = s).
  { induction l as [|u l IH]; intros s H; [reflexivity|].
    unfold positionsSeen. cbn [fold_left]. rewrite (K s u H).
    apply IH. exact H. }
  assert (Q : Planner.startQuery
                (Planner.syncUserLocation (Some u1)
                   (Planner.opening (Some u1) d)) <> [])
    by (cbn; discriminate).
  split; [reflexivity|]. split; [apply F; exact Q|].
  split; [rewrite (F us _ Q); reflexivity|].
  split; [intros s; reflexivity|].
  intros s u. reflexivity.
Qed.

(* ================================================================== *)
(** * A click on the map and the routing control *)
(* ================================================================== *)



(* ================================================================== *)
(** * One run of the effect *)
(* ================================================================== *)

(** X17.  A run of the effect of [MapUpdater] that returns sends at most one
    call to the map.  Without a call the map and the references are as
    before.  The references change only with the call of the last branch,
    and then hold the centre and the zoom of that call. *)
Theorem effect_single_action (L : Leaflet) (p : Props) (rf : Refs)
  (m : Map L) (run : Run L) :
  MapUpdater L p rf m = Some run ->
  (calls run = [] /\ refs run = rf /\ map run = m)
  \/ (exists c,
        calls run = [c]
        /\ (refs run = rf
            \/ (c = SetView (lat (center p), lng (center p))
                      (targetZoom L p m) centerOptions
                /\ refs run
                   = {| lastAppliedCenter := Some (center p);
                        lastAppliedZoom := Some (targetZoom L p m) |}))).
Proof.
  unfold MapUpdater.
  destruct (routeFitGuard p) as [r|].
  - unfold fitRoute.
    destruct (latLngBounds L (route_coordinates r)) as [b|]; [|discriminate].
    destruct (isValid L b).
    + destruct (fitBounds L b routeFitOptions m); [|discriminate].
      intros H; inversion H. right. eexists. split; [reflexivity|].
      left. reflexivity.
    + intros H; inversion H. left. repeat split; reflexivity.
  - destruct (followGuard p) as [u|]; intros H; inversion H; clear H.
    + unfold followUser.
      destruct (gt (dist (getCenter L m) u) followThreshold);
        [|left; repeat split; reflexivity].
      destruct (setView L _ _ _ m); [|left; repeat split; reflexivity].
      right. eexists. split; [reflexivity|]. left. reflexivity.
    + unfold applyCenter.
      destruct (negb _); [left; repeat split; reflexivity|].
      destruct (centerChanged p rf || zoomChanged L p rf m);
        [|left; repeat split; reflexivity].
      destruct (setView L _ _ _ m); [|left; repeat split; reflexivity].
      right. eexists. split; [reflexivity|]. right. split; reflexivity.
Qed.

Lemma effect_single_action_witness :
  (calls (followUser idealMap firstFix mountedRefs cityView) = []
   /\ refs (followUser idealMap firstFix mountedRefs cityView) = mountedRefs
   /\ map (followUser idealMap firstFix mountedRefs cityView) = cityView)
  \/ (exists c,
        calls (followUser idealMap firstFix mountedRefs cityView) = [c]
        /\ (refs (followUser idealMap firstFix mountedRefs cityView)
            = mountedRefs
            \/ (c = SetView (lat (center followingProps),
                             lng (center followingProps))
                      (targetZoom idealMap followingProps cityView)
                      centerOptions
                /\ refs (followUser idealMap firstFix mountedRefs cityView)
                   = {| lastAppliedCenter := Some (center followingProps);
                        lastAppliedZoom :=
                          Some (targetZoom idealMap followingProps
                                  cityView) |}))).
Proof.
  exact (effect_single_action idealMap followingProps mountedRefs cityView
           (followUser idealMap firstFix mountedRefs cityView) eq_refl).
Defined.

(* ================================================================== *)
(** * Positions that do not arrive *)
(* ================================================================== *)

(** X18.  What the application does when no position comes.  A failure of
    the watch started at mount only lowers [isLocating]: it shows nothing.
    A failure of the watch of the locate button shows a sentence chosen by
    the code of the error: 1 for a refusal, 3 for a timeout, and one
    sentence for every other code.  A report whose latitude or longitude is
    NaN leaves the state that reaches the map as it is.  Without
    [navigator.geolocation] the locate button, pressed while no position is
    known, starts no watch and shows that geolocation is not supported, yet
    still turns [isFollowingUser] over. *)
Theorem positions_that_do_not_arrive (hasGeolocation : bool)
  (routeFoundText : number -> number -> jsstring) (a : Screen) :
  (forall code,
     watching mountWatch a = true ->
     step hasGeolocation routeFoundText (PositionFailed mountWatch code) a
     = setIsLocating false a)
  /\ (forall code,
        watching locateWatch a = true ->
        step hasGeolocation routeFoundText (PositionFailed locateWatch code) a
        = setIsLocating false
            (setAiResponseText
               (Some (if N.eqb code 3
                      then lit "Location request timed out."
                      else if N.eqb code 1
                      then lit ("Location access denied. "
                                ++ "Please enable permissions.")
                      else lit "Unable to retrieve your location.")) a))
  /\ (forall w la ln acc,
        isNaN la = true \/ isNaN ln = true ->
        view (step hasGeolocation routeFoundText
                (PositionReported w la ln acc) a) = view a)
  /\ (hasGeolocation = false ->
      manualLocation (view a) = None -> gpsLocation (view a) = None ->
      let a' := step hasGeolocation routeFoundText LocatePressed a in
      watches a' = watches a
      /\ isLocating a' = isLocating a
      /\ aiResponseText a'
         = Some (lit "Geolocation is not supported by your browser.")
      /\ app_isFollowingUser (view a')
         = negb (app_isFollowingUser (view a))).
Proof.
  split; [|split; [|split]].
  - intros code W. cbn [step]. rewrite W. reflexivity.
  - intros code W. cbn [step]. rewrite W. unfold positionError, onError.
    destruct (N.eqb code 3) eqn:E3; [reflexivity|].
    destruct (N.eqb code 1); reflexivity.
  - intros w la ln acc N. cbn [step].
    destruct (watching w a); [|reflexivity].
    unfold positionSuccess.
    replace (negb (isNaN la) && negb (isNaN ln)) with false; [reflexivity|].
    destruct N as [-> | ->]; [reflexivity|].
    destruct (isNaN la); reflexivity.
  - intros -> M G. cbn zeta. cbn [step]. unfold handleManualLocate.
    rewrite M, G. unfold startLocationWatch, onError.
    destruct (app_isFollowingUser (view a)); repeat split; reflexivity.
Qed.

(* ================================================================== *)
(** * One turn of the loop of [parseResponse] *)
(* ================================================================== *)

Section ExecFacts.

(** [search] stops at the first position where the pattern matches. *)
Lemma search_leftmost (p : Pattern) :
  forall s idx m,
    search p s idx = Some m ->
    idx <= index m
    /\ forall k, k < index m - idx -> matchHere p (skipn k s) = None.
Proof.
  induction s as [|c s IH]; intros idx m H; cbn [search] in H.
  - destruct (matchHere p []) as [[caps rest]|]; [|discriminate].
    inversion H; subst m. cbn [index]. split; [lia|]. intros k Hk. lia.
  - destruct (matchHere p (c :: s)) as [[caps rest]|] eqn:M.
    + inversion H; subst m. cbn [index]. split; [lia|]. intros k Hk. lia.
    + destruct (IH _ _ H) as [Hi Hk]. split; [lia|].
      intros [|k] Hlt; [exact M|]. cbn [skipn]. apply Hk. lia.
Qed.

End ExecFacts.

(** X19.  One turn of the loop of [parseResponse].  When [exec] finds a
    match from [lastIndex] on, the match is a well-formed tag that stands in
    the text at the index [exec] reports, no match starts between
    [lastIndex] and that index, and the new [lastIndex] is the end of the
    tag, at least twelve code units further and within the text.  When
    [exec] finds nothing it leaves [lastIndex] at 0. *)
Theorem exec_finds_next_tag (text : jsstring) (lastIndex : nat) :
  (forall m next,
     exec PLACE_TAG_REGEX text lastIndex = (Some m, next) ->
     exists t,
       wellFormed t = true
       /\ groups m = fields t /\ fullTag m = tagText t
       /\ lastIndex <= index m
       /\ skipn (index m) text = tagText t ++ skipn next text
       /\ next = index m + List.length (tagText t)
       /\ lastIndex + 12 <= next /\ next <= List.length text
       /\ forall k, lastIndex <= k < index m ->
                    matchHere PLACE_TAG_REGEX (skipn k text) = None)
  /\ (forall next,
        exec PLACE_TAG_REGEX text lastIndex = (None, next) -> next = 0).
Proof.
  unfold exec. split.
  - intros m next H.
    destruct (Nat.ltb (List.length text) lastIndex) eqn:B; [discriminate|].
    apply Nat.ltb_ge in B.
    destruct (search PLACE_TAG_REGEX (skipn lastIndex text) lastIndex)
      as [m'|] eqn:S; [|discriminate].
    inversion H; subst m' next. clear H.
    destruct (search_leftmost _ _ _ _ S) as [Hi Hk].
    destruct (search_inv _ _ _ S) as (g & t & rest & E & Hwf & ->).
    cbn [index fullTag groups tagMatch] in *.
    pose proof (tagText_length t) as Ht.
    assert (E1 : skipn (lastIndex + List.length g) text
                 = tagText t ++ rest).
    { rewrite Nat.add_comm, <- skipn_skipn, E. apply skipn_length_app. }
    assert (E2 : skipn (lastIndex + List.length g
                        + List.length (tagText t)) text = rest).
    { rewrite (Nat.add_comm _ (List.length (tagText t))), <- skipn_skipn, E1.
      apply skipn_length_app. }
    exists t. split; [exact Hwf|]. split; [reflexivity|].
    split; [reflexivity|]. split; [lia|].
    split; [rewrite E1, E2; reflexivity|]. split; [reflexivity|].
    split; [lia|]. split.
    + assert (L : List.length (skipn lastIndex text)
                  = List.length text - lastIndex) by apply length_skipn.
      rewrite E in L. repeat rewrite length_app in L. lia.
    + intros k [K1 K2].
      replace k with ((k - lastIndex) + lastIndex) by lia.
      rewrite <- skipn_skipn. apply Hk. lia.
  - intros next H.
    destruct (Nat.ltb (List.length text) lastIndex);
      [inversion H; reflexivity|].
    destruct (search _ _ _); inversion H. reflexivity.
Qed.

Lemma exec_finds_next_tag_witness :
  exists t,
    wellFormed t = true
    /\ skipn 3 orderText = tagText t ++ skipn 19 orderText
    /\ 0 + 12 <= 19.
Proof.
  destruct (proj1 (exec_finds_next_tag orderText 0)
              (tagMatch 3 {| tagName := lit "A"; tagLat := lit "1";
                             tagLng := lit "1"; tagAddress := lit "x" |})
              19 eq_refl)
    as (t & W & _ & _ & _ & E & _ & P & _).
  exists t. exact (conj W (conj E P)).
Defined.

(* ================================================================== *)
(** * The drag and the watch of the first render *)
(* ================================================================== *)

(** X20.  In every state the application reaches from its first render, a
    drag of the map stops the follow as far as the watch of the first render
    goes: after the drag [isFollowingUser] is down, a position this watch
    reports leaves it down, and the run of the effect on the new position
    sends no call of the follow branch. *)
Theorem drag_holds_for_mount_watch (L : Leaflet) (hasGeolocation : bool)
  (routeFoundText : number -> number -> jsstring) (es : list Event)
  (la ln acc : number) (rf : Refs) (m : Map L) :
  let a := run hasGeolocation routeFoundText es (mounted hasGeolocation) in
  let a1 := step hasGeolocation routeFoundText MapDragged a in
  let a2 := step hasGeolocation routeFoundText
              (PositionReported mountWatch la ln acc) a1 in
  app_isFollowingUser (view a1) = false
  /\ app_isFollowingUser (view a2) = false
  /\ followGuard (mapProps (view a2)) = None
  /\ forall r c,
       MapUpdater L (mapProps (view a2)) rf m = Some r ->
       In c (calls r) -> isFollowCall c = false.
Proof.
  cbn zeta.
  set (a := run hasGeolocation routeFoundText es (mounted hasGeolocation)).
  assert (N : app_isNavigating (view a) = false).
  { unfold a. rewrite run_isNavigating. unfold mounted, mount.
    rewrite startLocationWatch_view. reflexivity. }
  assert (F1 : app_isFollowingUser
                 (view (step hasGeolocation routeFoundText MapDragged a))
               = false).
  { cbn. unfold handleMapDrag.
    destruct (app_isFollowingUser (view a)) eqn:F; [reflexivity|exact F]. }
  assert (N1 : app_isNavigating
                 (view (step hasGeolocation routeFoundText MapDragged a))
               = false)
    by (rewrite step_isNavigating; exact N).
  set (a1 := step hasGeolocation routeFoundText MapDragged a) in *.
  assert (F2 : app_isFollowingUser
                 (view (step hasGeolocation routeFoundText
                          (PositionReported mountWatch la ln acc) a1))
               = false).
  { cbn [step]. destruct (watching mountWatch a1); [|exact F1].
    unfold positionSuccess, onPosition.
    destruct (negb (isNaN la) && negb (isNaN ln)); [|exact F1].
    cbn. exact F1. }
  assert (N2 : app_isNavigating
                 (view (step hasGeolocation routeFoundText
                          (PositionReported mountWatch la ln acc) a1))
               = false)
    by (rewrite step_isNavigating; exact N1).
  set (a2 := step hasGeolocation routeFoundText
               (PositionReported mountWatch la ln acc) a1) in *.
  assert (G : followGuard (mapProps (view a2)) = None).
  { unfold followGuard, mapProps. cbn [isNavigating isFollowingUser].
    rewrite N2, F2. reflexivity. }
  split; [exact F1|]. split; [exact F2|]. split; [exact G|].
  intros r c H Hin. unfold MapUpdater in H. rewrite G in H.
  destruct (routeFitGuard (mapProps (view a2))) as [rt|].
  - rewrite (fitRoute_calls L rt rf m r c H Hin). reflexivity.
  - inversion H; subst r.
    destruct (applyCenter_calls L _ rf m c Hin) as [-> _]. reflexivity.
Qed.

Lemma planner_typing_witness :
  Planner.fetchSuggestions (fun _ => Some []) (lit "ab") Planner.start
    readyPlanner
  = Planner.setStartSuggestions [] readyPlanner.
Proof.
  refine (proj1 (proj1 (proj2 (proj2 (planner_typing (fun _ => Some [])
                    oneRoute readyPlanner)))
                    (lit "ab") readyPlanner (fun _ => None) _)).
  cbn. lia.
Defined.

Lemma positions_that_do_not_arrive_witness :
  aiResponseText
    (step true noText (PositionFailed locateWatch 1)
       (step true noText LocatePressed (mounted true)))
  = Some (lit "Location access denied. Please enable permissions.").
Proof.
  rewrite (proj1 (proj2 (positions_that_do_not_arrive true noText
                           (step true noText LocatePressed (mounted true))))
             1%N eq_refl).
  reflexivity.
Defined.

(* ================================================================== *)
(** * The size of the result *)
(* ================================================================== *)

Section SizeFacts.

Variable randomId : nat -> jsstring.

Lemma weave_length (l : list (jsstring * Tag)) (tail : jsstring) :
  List.length (strip l tail) + 12 * List.length l
  <= List.length (weave l tail).
Proof.
  induction l as [|[g t] l IH]; cbn [weave strip List.length]; [lia|].
  pose proof (tagText_length t) as Ht. repeat rewrite length_app. lia.
Qed.

Lemma placesFrom_length (ts : list Tag) :
  forall d, List.length (placesFrom randomId d ts) <= List.length ts.
Proof.
  induction ts as [|t ts IH]; intros d; cbn [placesFrom List.length];
    [lia|].
  destruct (placeOfTag randomId d t); cbn [List.length].
  - specialize (IH (S d)). lia.
  - specialize (IH d). lia.
Qed.

Lemma cutText_hasTag (text : jsstring) :
  fst (cutText text) = [] <-> hasTag text = false.
Proof.
  unfold cutText, hasTag. cbn [cut].
  destruct (search PLACE_TAG_REGEX text 0) as [m|].
  - destruct (cut _ _) as [l tail]. cbn [fst]. split; discriminate.
  - cbn [fst]. split; reflexivity.
Qed.

End SizeFacts.

(** X21.  The size of what [parseResponse] returns.  The display text is
    shorter than the text by at least twelve code units for each tag the
    expression matches, and there is at most one place for each such tag.
    A text in which the expression matches nothing comes back as it is, with
    no place; a text in which it matches is strictly shortened. *)
Theorem parseResponse_sizes (randomId : nat -> jsstring) (text : jsstring)
  (r : ParseResult) :
  parseResponse randomId text = Some r ->
  List.length (cleanText r) + 12 * List.length (matchedTags text)
  <= List.length text
  /\ List.length (places r) <= List.length (matchedTags text)
  /\ (hasTag text = false -> cleanText r = text /\ places r = [])
  /\ (hasTag text = true -> List.length (cleanText r) < List.length text).
Proof.
  intros H. destruct (parseResponse_cut randomId text) as (W & _ & E).
  rewrite E in H. inversion H; subst r. clear H E.
  cbn [cleanText places].
  pose proof (weave_length (fst (cutText text)) (snd (cutText text))) as L.
  rewrite <- W in L.
  assert (M : List.length (matchedTags text)
              = List.length (fst (cutText text)))
    by (unfold matchedTags; apply length_map).
  split; [rewrite M; exact L|].
  split; [apply placesFrom_length|]. split.
  - intros T. apply cutText_hasTag in T.
    assert (T' : matchedTags text = [])
      by (unfold matchedTags; rewrite T; reflexivity).
    rewrite T'. split; [|reflexivity].
    rewrite T. rewrite T in W. cbn [weave strip] in *. congruence.
  - intros T.
    destruct (fst (cutText text)) as [|x l] eqn:C.
    + apply cutText_hasTag in C. congruence.
    + cbn [List.length] in L. lia.
Qed.

Lemma parseResponse_sizes_witness :
  exists r,
    parseResponse sampleId orderText = Some r
    /\ List.length (cleanText r) + 12 * 2 <= 41
    /\ List.length (places r) <= 2.
Proof.
  destruct (parseResponse_total sampleId orderText) as [r E].
  exists r. split; [exact E|].
  destruct (parseResponse_sizes sampleId orderText r E) as (A & B & _).
  exact (conj A B).
Defined.

(* ================================================================== *)
(** * What holds in every state of the application *)
(* ================================================================== *)

Section ReachFacts.

Variable hasGeolocation : bool.
Variable routeFoundText : number -> number -> jsstring.

(** What the events keep holds after any list of events. *)
Lemma run_keeps (P : Screen -> Prop) :
  (forall e a, P a -> P (step hasGeolocation routeFoundText e a)) ->
  forall es a, P a -> P (run hasGeolocation routeFoundText es a).
Proof.
  intros K. induction es as [|e es IH]; intros a H; [exact H|].
  cbn [run fold_left].
  fold (run hasGeolocation routeFoundText es
          (step hasGeolocation routeFoundText e a)).
  apply IH, K, H.
Qed.

(** The events that touch neither the route nor the destination. *)
Lemma step_route_and_destination (e : Event) (a : Screen) :
  match e with
  | MapClicked _ | RouteFound _ _ _ | PlannerCancelled => True
  | _ =>
      app_routeData (view (step hasGeolocation routeFoundText e a))
      = app_routeData (view a)
      /\ destinationLocation (view (step hasGeolocation routeFoundText e a))
         = destinationLocation (view a)
  end.
Proof.
  destruct e; cbn [step]; try exact I; try (split; reflexivity).
  - unfold handleManualLocate.
    destruct (manualLocation (view a)).
    + cbn. destruct (gpsLocation (view a)); split; reflexivity.
    + destruct (gpsLocation (view a));
        [|rewrite startLocationWatch_view];
        destruct (app_isFollowingUser (view a)); split; reflexivity.
  - cbn. unfold handleMapDrag.
    destruct (app_isFollowingUser (view a)); split; reflexivity.
  - unfold handlePlaceSelect.
    destruct (find _ _) as [pl|]; [|split; reflexivity].
    destruct (negb _); split; reflexivity.
  - unfold searchStart. destruct (trim (query a)); split; reflexivity.
  - unfold searchEnd. destruct answer as [response|]; [|split; reflexivity].
    destruct (msg_places response) as [[|pl ps]|]; try (split; reflexivity).
    destruct (negb _); split; reflexivity.
  - destruct (watching w a); [|split; reflexivity].
    unfold positionSuccess, onPosition.
    destruct (negb (isNaN la) && negb (isNaN ln)); [|split; reflexivity].
    destruct w; split; reflexivity.
  - destruct (watching w a); [|split; reflexivity].
    unfold positionError. destruct w; split; reflexivity.
Qed.

(** The events that are not a position report leave the GPS position. *)
Lemma step_gpsLocation (e : Event) (a : Screen) :
  match e with
  | PositionReported _ _ _ _ => True
  | _ =>
      gpsLocation (view (step hasGeolocation routeFoundText e a))
      = gpsLocation (view a)
  end.
Proof.
  destruct e; cbn [step]; try exact I; try reflexivity.
  - unfold handleManualLocate.
    destruct (manualLocation (view a)).
    + destruct (gpsLocation (view a)) eqn:G; cbn; rewrite ?G; reflexivity.
    + destruct (gpsLocation (view a)) eqn:G;
        [|rewrite startLocationWatch_view];
        destruct (app_isFollowingUser (view a)); cbn; rewrite ?G;
        reflexivity.
  - cbn. unfold handleMapDrag.
    destruct (app_isFollowingUser (view a)); reflexivity.
  - unfold handlePlaceSelect. destruct (find _ _) as [pl|]; [|reflexivity].
    destruct (negb _); reflexivity.
  - unfold searchStart. destruct (trim (query a)); reflexivity.
  - unfold searchEnd. destruct answer as [response|]; [|reflexivity].
    destruct (msg_places response) as [[|pl ps]|]; try reflexivity.
    destruct (negb _); reflexivity.
  - destruct (watching w a); [|reflexivity].
    unfold positionError. destruct w; reflexivity.
Qed.

End ReachFacts.

(** X22.  In every state the application reaches from its first render, a
    route on display has its destination: the route data are set only
    together with a destination, and the destination is cleared only
    together with the route data. *)
Theorem route_has_destination (hasGeolocation : bool)
  (routeFoundText : number -> number -> jsstring) (es : list Event) :
  let a := run hasGeolocation routeFoundText es (mounted hasGeolocation) in
  (exists r, app_routeData (view a) = Some r) ->
  exists d, destinationLocation (view a) = Some d.
Proof.
  cbn zeta.
  apply (run_keeps hasGeolocation routeFoundText
           (fun a => (exists r, app_routeData (view a) = Some r) ->
                     exists d, destinationLocation (view a) = Some d)).
  - intros e a H.
    pose proof (step_route_and_destination hasGeolocation routeFoundText e a)
      as K.
    destruct e; cbn beta iota in K;
      lazymatch type of K with
      | True => idtac
      | _ => destruct K as [K1 K2]; rewrite K1, K2; exact H
      end.
    + intros _. cbn. eauto.
    + intros _. cbn. eauto.
    + intros [r R]. cbn in R. discriminate.
  - unfold mounted, mount. rewrite startLocationWatch_view.
    intros [r R]. discriminate.
Qed.

Lemma route_has_destination_witness :
  exists d,
    destinationLocation
      (view (run true noText
               [MapClicked farFix; RouteFound sampleRoute firstFix secondFix;
                LocatePressed]
               (mounted true))) = Some d.
Proof.
  apply (route_has_destination true noText
           [MapClicked farFix; RouteFound sampleRoute firstFix secondFix;
            LocatePressed]).
  exists sampleRoute. reflexivity.
Defined.

(** X23.  In every state the application reaches from its first render, the
    GPS position, when there is one, has a latitude and a longitude that are
    not NaN, and an accuracy: a position is stored only by the callback of a
    watch, behind its test.  The test lets infinite values through. *)
Theorem gps_position_is_a_number (hasGeolocation : bool)
  (routeFoundText : number -> number -> jsstring) (es : list Event) :
  (forall g,
     gpsLocation
       (view (run hasGeolocation routeFoundText es (mounted hasGeolocation)))
     = Some g ->
     isNaN (lat g) = false /\ isNaN (lng g) = false
     /\ exists acc, accuracy g = Some acc)
  /\ (forall a la acc,
        watching mountWatch a = true -> isNaN la = false ->
        gpsLocation
          (view (step hasGeolocation routeFoundText
                   (PositionReported mountWatch la (S754_infinity false) acc)
                   a))
        = Some {| lat := la; lng := S754_infinity false;
                  accuracy := Some acc |}).
Proof.
  split.
  - apply (run_keeps hasGeolocation routeFoundText
             (fun a => forall g,
                gpsLocation (view a) = Some g ->
                isNaN (lat g) = false /\ isNaN (lng g) = false
                /\ exists acc, accuracy g = Some acc)).
    + intros e a H g.
      pose proof (step_gpsLocation hasGeolocation routeFoundText e a) as K.
      destruct e; cbn beta iota in K;
        lazymatch type of K with
        | True => idtac
        | _ => rewrite K; apply H
        end.
      cbn [step]. destruct (watching w a); [|apply H].
      unfold positionSuccess, onPosition.
      destruct (isNaN la) eqn:N1; cbn [negb andb]; [apply H|].
      destruct (isNaN ln) eqn:N2; cbn [negb andb]; [apply H|].
      destruct w; cbn; intros E; inversion E; subst g; cbn;
        repeat split; eauto.
    + unfold mounted, mount. rewrite startLocationWatch_view.
      intros g E. discriminate.
  - intros a la acc W N. cbn [step]. rewrite W.
    unfold positionSuccess, onPosition. rewrite N. reflexivity.
Qed.
